(** * AsyncVideoWriter (arducam_thread_rec.py): a bounded producer/consumer
    recorder, embedded as an interleaving transition system.

    The caller thread runs [start], [write] and [stop]; the thread spawned by
    [start] runs [_process_queue].  Both share one [queue.Queue].  Every
    operation that can block ([queue.put], [queue.get], [Thread.join]) is a
    step that is enabled only when the Python call can return. *)

From Stdlib Require Import ZArith QArith Lia Ascii.
From stdpp Require Import base option list strings.

Local Open Scope Z_scope.

(** ** The world outside the class *)

(** The file system, as far as [os.path.exists] and [os.path.getsize] see it:
    the size in bytes of the file at each path that has one. *)
Definition files := string -> option Z.

Definition no_files : files := fun _ => None.

(** The file at [path] now has [bytes] bytes. *)
Definition file_put (path : string) (bytes : Z) (d : files) : files :=
  fun p => if String.eqb p path then Some bytes else d p.

(** The file at [path], if there is one, grows by [bytes] bytes. *)
Definition file_grow (path : string) (bytes : Z) (d : files) : files :=
  fun p => if String.eqb p path then Z.add bytes <$> d p else d p.

(** Python exceptions that the class meets: [queue.Full], and whatever the
    [cv2.VideoWriter] constructor raises. *)
Inductive exn :=
| Full
| Cv2Error (msg : string).

(** [cv2.VideoWriter]: the encoder.  It is opaque to the class, which only
    constructs it, asks [isOpened], calls [write] and [release].  [VW] is the
    state of one such object. *)
Class Cv2 (frame : Type) := {
  VW : Type;
  VideoWriter : string -> Z -> Q -> Z * Z -> files -> (exn + VW) * files;
  isOpened : VW -> bool;
  VideoWriter_write : frame -> VW -> files -> VW * files;
  VideoWriter_release : VW -> files -> VW * files
}.

(** What the class prints. *)
Inductive line :=
| IO_initializing (filename : string)
| IO_codec_settings (frame_size : Z * Z) (fps : Q)
| Error_failed_to_open
| Error_writer_exception (e : exn)
| Rec_video_saved (filename : string)
| Rec_size_dropped (size_mb : Q) (dropped_frames : Z).

(** ** queue.Queue *)

Section Queue.
Context {A : Type}.

(** [maxsize <= 0] means an unbounded queue, as in Python. *)
Record Queue := mkQueue {
  maxsize : Z;
  items : list A
}.

Definition Queue_new (maxsize : Z) : Queue := mkQueue maxsize [].

Definition full (q : Queue) : bool :=
  (0 <? maxsize q) && (maxsize q <=? Z.of_nat (length (items q))).

Definition enqueue (x : A) (q : Queue) : Queue :=
  mkQueue (maxsize q) (items q ++ [x]).

(** [put_nowait]: raises [Full] instead of waiting. *)
Definition put_nowait (x : A) (q : Queue) : exn + Queue :=
  if full q then inl Full else inr (enqueue x q).

(** [put], blocking: [None] while the caller has to wait. *)
Definition put (x : A) (q : Queue) : option Queue :=
  if full q then None else Some (enqueue x q).

(** [get], blocking: [None] while the caller has to wait.  [task_done]
    only counts for [Queue.join], which the program never calls; it is left
    out. *)
Definition get (q : Queue) : option (A * Queue) :=
  match items q with
  | [] => None
  | x :: rest => Some (x, mkQueue (maxsize q) rest)
  end.
End Queue.
Arguments Queue : clear implicits.

(** ** The class and the two threads *)

(** [self.thread]: the handle of the thread that runs [_process_queue]. *)
Inductive Thread := Thread_process_queue.

Section Model.
Context {frame : Type} {cv2 : Cv2 frame}.

(** The fields of an [AsyncVideoWriter].  A queue item is a frame or
    [None], the sentinel; a frame is an image that [cap.read()] returned
    with [ret] true, never [None]. *)
Record AsyncVideoWriter := mkAsyncVideoWriter {
  filename : string;
  fourcc : Z;
  fps : Q;
  frame_size : Z * Z;
  queue : Queue (option frame);
  writer : option VW;
  thread : option Thread;
  is_recording : bool;
  dropped_frames : Z
}.

(** [__init__] *)
Definition init (filename : string) (fourcc : Z) (fps : Q)
    (frame_size : Z * Z) (queue_size : Z) : AsyncVideoWriter :=
  mkAsyncVideoWriter filename fourcc fps frame_size (Queue_new queue_size)
                     None None false 0.

Definition set_queue (q : Queue (option frame)) (w : AsyncVideoWriter) :=
  mkAsyncVideoWriter (filename w) (fourcc w) (fps w) (frame_size w) q
    (writer w) (thread w) (is_recording w) (dropped_frames w).
Definition set_writer (v : option VW) (w : AsyncVideoWriter) :=
  mkAsyncVideoWriter (filename w) (fourcc w) (fps w) (frame_size w) (queue w)
    v (thread w) (is_recording w) (dropped_frames w).
Definition set_thread (t : option Thread) (w : AsyncVideoWriter) :=
  mkAsyncVideoWriter (filename w) (fourcc w) (fps w) (frame_size w) (queue w)
    (writer w) t (is_recording w) (dropped_frames w).
Definition set_is_recording (b : bool) (w : AsyncVideoWriter) :=
  mkAsyncVideoWriter (filename w) (fourcc w) (fps w) (frame_size w) (queue w)
    (writer w) (thread w) b (dropped_frames w).
Definition set_dropped_frames (n : Z) (w : AsyncVideoWriter) :=
  mkAsyncVideoWriter (filename w) (fourcc w) (fps w) (frame_size w) (queue w)
    (writer w) (thread w) (is_recording w) n.

(** Where the thread of [_process_queue] stands. *)
Inductive consumer_state :=
| NotStarted                      (* no thread yet *)
| Waiting                         (* at [self.queue.get()] *)
| Holding (x : option frame)      (* [get] returned [x] *)
| Exited.                         (* left the loop *)

(** Where the caller stands: between calls, or inside [stop] at one of its
    two blocking calls. *)
Inductive caller_state :=
| Ready
| InStopPut                       (* at [self.queue.put(None)] *)
| InStopJoin.                     (* at [self.thread.join()] *)

Record system := mkSystem {
  obj : AsyncVideoWriter;
  consumer : consumer_state;
  caller : caller_state;
  written : list frame;           (* arguments of [self.writer.write], in order *)
  releases : nat;                 (* calls of [self.writer.release] *)
  disk : files;
  stdout : list line
}.

Definition set_obj (w : AsyncVideoWriter) (s : system) :=
  mkSystem w (consumer s) (caller s) (written s) (releases s) (disk s) (stdout s).
Definition set_consumer (c : consumer_state) (s : system) :=
  mkSystem (obj s) c (caller s) (written s) (releases s) (disk s) (stdout s).
Definition set_caller (c : caller_state) (s : system) :=
  mkSystem (obj s) (consumer s) c (written s) (releases s) (disk s) (stdout s).
Definition set_disk (d : files) (s : system) :=
  mkSystem (obj s) (consumer s) (caller s) (written s) (releases s) d (stdout s).
Definition print (ls : list line) (s : system) :=
  mkSystem (obj s) (consumer s) (caller s) (written s) (releases s) (disk s)
           (stdout s ++ ls).

(** The state right after the constructor. *)
Definition fresh (w : AsyncVideoWriter) (d : files) : system :=
  mkSystem w NotStarted Ready [] 0%nat d [].

(** [start], lines 25-44.  The three ways the [try] block ends: the
    constructor raises, the writer is not opened, the writer is opened. *)
Definition start (s : system) : bool * system :=
  let w := obj s in
  let s1 := print [IO_initializing (filename w);
                   IO_codec_settings (frame_size w) (fps w)] s in
  match VideoWriter (filename w) (fourcc w) (fps w) (frame_size w) (disk s) with
  | (inl e, d) =>
      (false, print [Error_writer_exception e] (set_disk d s1))
  | (inr vw, d) =>
      if negb (isOpened vw) then
        (false, print [Error_failed_to_open]
                      (set_obj (set_writer None w) (set_disk d s1)))
      else
        (true,
         set_consumer Waiting
           (set_obj (set_thread (Some Thread_process_queue)
                      (set_dropped_frames 0
                        (set_is_recording true
                          (set_writer (Some vw) w))))
                    (set_disk d s1)))
  end.

(** [write], lines 46-52. *)
Definition write (f : frame) (w : AsyncVideoWriter) : AsyncVideoWriter :=
  if negb (is_recording w) then w
  else match put_nowait (Some f) (queue w) with
       | inr q => set_queue q w
       | inl _ => set_dropped_frames (dropped_frames w + 1) w
       end.

(** [stop], lines 63-73: release the writer, measure the file, report.
    The size in MB is the quotient of the byte count by [1024 * 1024], kept
    here as an exact rational. *)
Definition size_mb (d : files) (path : string) : Q :=
  match d path with
  | Some bytes => bytes # 1048576
  | None => 0%Q
  end.

Definition stop_finish (s : system) : system :=
  let s1 :=
    match writer (obj s) with
    | Some vw =>
        let '(_, d) := VideoWriter_release vw (disk s) in
        mkSystem (set_writer None (obj s)) (consumer s) (caller s)
                 (written s) (S (releases s)) d (stdout s)
    | None => s
    end in
  let w := obj s1 in
  set_caller Ready
    (print [Rec_video_saved (filename w);
            Rec_size_dropped (size_mb (disk s1) (filename w)) (dropped_frames w)]
           s1).

(** [stop], lines 56-57: up to the first blocking call, or to the end when
    there is no thread. *)
Definition stop_enter (s : system) : system :=
  let s1 := set_obj (set_is_recording false (obj s)) s in
  match thread (obj s1) with
  | Some _ => set_caller InStopPut s1
  | None => stop_finish s1
  end.

(** [stop], line 59: [self.queue.put(None)] returns. *)
Definition stop_put (s : system) : option system :=
  match put None (queue (obj s)) with
  | Some q => Some (set_caller InStopJoin (set_obj (set_queue q (obj s)) s))
  | None => None
  end.

(** [stop], lines 60-73: [join] returns once the thread has exited. *)
Definition stop_join (s : system) : option system :=
  match consumer s with
  | Exited => Some (stop_finish (set_obj (set_thread None (obj s)) s))
  | _ => None
  end.

(** [_process_queue], line 77: [self.queue.get()] returns. *)
Definition consumer_get (s : system) : option system :=
  match consumer s with
  | Waiting =>
      match get (queue (obj s)) with
      | Some (x, q) =>
          Some (set_consumer (Holding x) (set_obj (set_queue q (obj s)) s))
      | None => None
      end
  | _ => None
  end.

(** [_process_queue], lines 78-84. *)
Definition consumer_process (s : system) : option system :=
  match consumer s with
  | Holding None => Some (set_consumer Exited s)
  | Holding (Some f) =>
      match writer (obj s) with
      | Some vw =>
          let '(vw', d) := VideoWriter_write f vw (disk s) in
          Some (mkSystem (set_writer (Some vw') (obj s)) Waiting (caller s)
                         (written s ++ [f]) (releases s) d (stdout s))
      | None => Some (set_consumer Waiting s)
      end
  | _ => None
  end.

(** The steps of the two threads.  [write] never blocks, and the capture
    loop may call it whatever the controller is doing.  [CameraApp] builds a
    new [AsyncVideoWriter] for every [start], so [CallStart] is offered on
    an object whose thread was never spawned. *)
Inductive label :=
| CallStart
| CallWrite (f : frame)
| CallStop
| StopPut
| StopJoin
| Get
| Process.

Definition step (l : label) (s : system) : option system :=
  match l with
  | CallStart =>
      match caller s, consumer s with
      | Ready, NotStarted => Some (snd (start s))
      | _, _ => None
      end
  | CallWrite f => Some (set_obj (write f (obj s)) s)
  | CallStop =>
      match caller s with
      | Ready => Some (stop_enter s)
      | _ => None
      end
  | StopPut =>
      match caller s with
      | InStopPut => stop_put s
      | _ => None
      end
  | StopJoin =>
      match caller s with
      | InStopJoin => stop_join s
      | _ => None
      end
  | Get => consumer_get s
  | Process => consumer_process s
  end.

Fixpoint run (tr : list label) (s : system) : option system :=
  match tr with
  | [] => Some s
  | l :: tr' =>
      match step l s with
      | Some s' => run tr' s'
      | None => None
      end
  end.

(** The state a trace ends in; the start state if the trace cannot run. *)
Definition final (tr : list label) (s : system) : system :=
  default s (run tr s).

(** ** What a trace shows *)

Definition is_call (l : label) : bool :=
  match l with
  | CallStart | CallWrite _ | CallStop => true
  | _ => false
  end.

(** The calls of the caller, without the steps inside [stop]. *)
Definition calls (tr : list label) : list label := List.filter is_call tr.

(** The frame of a [write] that finds the writer recording. *)
Definition offered (l : label) (s : system) : list frame :=
  match l with
  | CallWrite f => if is_recording (obj s) then [f] else []
  | _ => []
  end.

(** ... that the queue takes. *)
Definition accepted (l : label) (s : system) : list frame :=
  match l with
  | CallWrite f =>
      if is_recording (obj s) && negb (full (queue (obj s))) then [f] else []
  | _ => []
  end.

(** ... that the queue rejects. *)
Definition rejected (l : label) (s : system) : list frame :=
  match l with
  | CallWrite f =>
      if is_recording (obj s) && full (queue (obj s)) then [f] else []
  | _ => []
  end.

Fixpoint collect (ev : label -> system -> list frame)
    (tr : list label) (s : system) : list frame :=
  match tr with
  | [] => []
  | l :: tr' =>
      match step l s with
      | Some s' => ev l s ++ collect ev tr' s'
      | None => []
      end
  end.

(** The frames of every [write] in a trace. *)
Fixpoint written_calls (tr : list label) : list frame :=
  match tr with
  | [] => []
  | CallWrite f :: tr' => f :: written_calls tr'
  | _ :: tr' => written_calls tr'
  end.

(** The frames in a list of queue items. *)
Definition frames_of (q : list (option frame)) : list frame :=
  omap id q.

(** The frames that are on their way: the one the consumer holds, then the
    queue. *)
Definition pending (s : system) : list frame :=
  match consumer s with
  | Holding (Some f) => [f]
  | _ => []
  end ++ frames_of (items (queue (obj s))).

(** The last report of [stop]. *)
Definition last_report (s : system) : option (string * Q * Z) :=
  match reverse (stdout s) with
  | Rec_size_dropped sz n :: Rec_video_saved p :: _ => Some (p, sz, n)
  | _ => None
  end.
(** ** Invariant and measure of the reachable states *)

(** The writer has not been started: the spec's Idle. *)
Definition idle (s : system) : Prop :=
  consumer s = NotStarted ∧ caller s = Ready ∧
  is_recording (obj s) = false ∧ thread (obj s) = None ∧
  writer (obj s) = None ∧ items (queue (obj s)) = [].

(** [stop] has returned on a started writer: the spec's Closed. *)
Definition closed (s : system) : Prop :=
  consumer s = Exited ∧ caller s = Ready ∧
  is_recording (obj s) = false ∧ thread (obj s) = None ∧
  writer (obj s) = None ∧ items (queue (obj s)) = [].

(** The thread is alive and has its writer. *)
Definition live (s : system) : Prop :=
  is_Some (thread (obj s)) ∧ is_Some (writer (obj s)).

Definition Inv (s : system) : Prop :=
  let w := obj s in
  let q := items (queue w) in
  (0 < maxsize (queue w) → Z.of_nat (length q) ≤ maxsize (queue w)) ∧
  match consumer s, caller s with
  | NotStarted, Ready =>
      idle s ∧ written s = [] ∧ dropped_frames w = 0 ∧ releases s = 0%nat
  | Waiting, Ready | Holding (Some _), Ready =>
      is_recording w = true ∧ live s ∧ Forall is_Some q
  | Waiting, InStopPut | Holding (Some _), InStopPut =>
      is_recording w = false ∧ live s ∧ Forall is_Some q
  | Waiting, InStopJoin | Holding (Some _), InStopJoin =>
      is_recording w = false ∧ live s ∧
      ∃ q0, q = q0 ++ [None] ∧ Forall is_Some q0
  | Holding None, InStopJoin | Exited, InStopJoin =>
      is_recording w = false ∧ live s ∧ q = []
  | Exited, Ready => closed s
  | _, _ => False
  end.

(** The writer was started and then stopped. *)
Definition stopped (s : system) : Prop :=
  is_recording (obj s) = false ∧ consumer s ≠ NotStarted.


(** What [stop] reports from a state: path, size, dropped frames. *)
Definition report (s : system) : string * Q * Z :=
  (filename (obj s), size_mb (disk s) (filename (obj s)),
   dropped_frames (obj s)).

Definition report_lines (s : system) : list line :=
  [Rec_video_saved (filename (obj s));
   Rec_size_dropped (size_mb (disk s) (filename (obj s)))
                    (dropped_frames (obj s))].

(** The [try] block of [start] does not end with an opened writer. *)
Definition open_fails (s : system) : bool :=
  let w := obj s in
  match VideoWriter (filename w) (fourcc w) (fps w) (frame_size w) (disk s) with
  | (inl _, _) => true
  | (inr vw, _) => negb (isOpened vw)
  end.

(** The file system as the constructor of the encoder leaves it. *)
Definition disk_after_open (s : system) : files :=
  let w := obj s in
  snd (VideoWriter (filename w) (fourcc w) (fps w) (frame_size w) (disk s)).

(** A bound on the steps still to come: every queue item is taken and
    processed, a held item is processed, and [stop] still has its [put],
    the sentinel's two steps and its [join] ahead. *)
Definition potential (s : system) : nat :=
  (2 * length (items (queue (obj s)))
   + match consumer s with Holding _ => 1 | _ => 0 end
   + match caller s with InStopPut => 4 | InStopJoin => 1 | Ready => 0 end)%nat.

(** What a call can add to the potential, and its own step. *)
Definition cost (l : label) : nat :=
  match l with
  | CallStart => 1
  | CallWrite _ => 3
  | CallStop => 5
  | _ => 0
  end%nat.

Fixpoint total_cost (tr : list label) : nat :=
  match tr with
  | [] => 0
  | l :: tr' => cost l + total_cost tr'
  end%nat.

Definition budget (tr : list label) : nat := total_cost (calls tr).

(** The encoder is released when [stop] has returned on a started writer,
    and not before. *)
Definition release_count (s : system) : nat :=
  match consumer s, caller s with
  | Exited, Ready => 1
  | _, _ => 0
  end.

(** [stop] has been called and the thread is not joined yet: the spec's
    Draining.  The caller of that [stop] is inside it, at [put] or at
    [join]; a second call can meet this state only when the first was left
    by an exception, as [CameraApp.run] does on [KeyboardInterrupt]. *)
Definition draining (s : system) : Prop :=
  is_recording (obj s) = false ∧ is_Some (thread (obj s)).

(** Sentinels in the queue: how many, and whether nothing but sentinels
    comes after the first. *)
Definition is_sentinel (x : option frame) : bool :=
  match x with
  | None => true
  | Some _ => false
  end.

Fixpoint sentinels (q : list (option frame)) : nat :=
  match q with
  | [] => 0
  | None :: q' => S (sentinels q')
  | Some _ :: q' => sentinels q'
  end.

Fixpoint sentinels_last (q : list (option frame)) : bool :=
  match q with
  | [] => true
  | None :: q' => forallb is_sentinel q'
  | Some _ :: q' => sentinels_last q'
  end.

(** The states of a writer on which [stop] has been called once, or twice
    when the first call was left by an exception: a second sentinel may be
    in the queue, and one may stay there for good. *)
Definition StopInv (s : system) : Prop :=
  let w := obj s in
  let q := items (queue w) in
  (0 < maxsize (queue w) → Z.of_nat (length q) ≤ maxsize (queue w)) ∧
  is_recording w = false ∧
  match consumer s, caller s with
  | NotStarted, Ready => idle s
  | Waiting, InStopPut | Holding (Some _), InStopPut =>
      live s ∧ sentinels_last q = true ∧ (sentinels q ≤ 1)%nat
  | Waiting, InStopJoin | Holding (Some _), InStopJoin =>
      live s ∧ sentinels_last q = true ∧ (1 ≤ sentinels q ≤ 2)%nat
  | Holding None, InStopPut | Exited, InStopPut => live s ∧ q = []
  | Holding None, InStopJoin | Exited, InStopJoin =>
      live s ∧ (q = [] ∨ q = [None])
  | Exited, Ready =>
      thread w = None ∧ writer w = None ∧ (q = [] ∨ q = [None])
  | _, _ => False
  end.
End Model.
Arguments AsyncVideoWriter frame {cv2}.
Arguments system frame {cv2}.
Arguments label : clear implicits.

(** ** CameraApp: the loop that drives the recorder

    The loop of [run], [toggle_recording] and [cleanup] as steps of the
    main thread, over the steps of the recorder.  A step of the main thread
    runs from one call that waits to the next: [cap.read], [subprocess.run],
    [cv2.waitKey], and in [stop] the [put] of the sentinel and the [join].
    [KeyboardInterrupt] reaches the main thread where it waits; [run]
    catches it and goes on to [cleanup], lines 289-292.  The statistics of
    [update_logic] (floating point) and the drawing are left out: the value
    that [update_logic] leaves in [current_fps] comes with the step. *)

(** [cv2.VideoWriter_fourcc]: four characters packed into an integer, the
    first in the low byte. *)
Definition char_code (c : ascii) : Z := Z.of_N (N_of_ascii c).

Definition VideoWriter_fourcc (c1 c2 c3 c4 : ascii) : Z :=
  Z.lor (Z.lor (Z.lor (char_code c1) (Z.shiftl (char_code c2) 8))
               (Z.shiftl (char_code c3) 16))
        (Z.shiftl (char_code c4) 24).

(** [os.path.join] of two components, as [posixpath] has it. *)
Definition starts_with_sep (s : string) : bool :=
  match s with
  | String c _ => Ascii.eqb c "/"%char
  | EmptyString => false
  end.

Fixpoint ends_with_sep (s : string) : bool :=
  match s with
  | EmptyString => false
  | String c EmptyString => Ascii.eqb c "/"%char
  | String _ rest => ends_with_sep rest
  end.

Definition path_join (a b : string) : string :=
  if starts_with_sep b then b
  else if String.eqb a "" || ends_with_sep a then a +:+ b
  else a +:+ "/" +:+ b.

(** One [v4l2-ctl -d /dev/video<device> -c <control>=<value>]. *)
Inductive shell_command :=
| V4l2_ctl (device : Z) (control : string) (value : Z).

(** What [CameraApp] prints. *)
Inductive app_line :=
| Rule
| Banner
| Ctrl_forcing (device : Z)
| Ctrl_applied (control : string) (value : Z)
| Ctrl_failed (control : string) (value : Z)
| Ctrl_configured
| User_stop_recording
| User_start_recording
| Warn_fallback
| User_snapshot_saved (name : string)
| Error_stream_lost
| System_interrupted
| System_shutting_down
| System_finalizing
| System_camera_released
| System_bye.

Section App.
Context {frame : Type} {cv2 : Cv2 frame}.

(** The fields of a [CameraApp] that the loop uses.  [async_recorder] holds
    the recorder together with its thread and its part of the world. *)
Record CameraApp := mkCameraApp {
  args_device : Z;
  args_fps : Z;
  actual_w : Z;
  actual_h : Z;
  output_dir : string;
  is_running : bool;
  async_recorder : option (system frame);
  current_fps : Q;
  hw_configured : bool
}.

Definition set_is_running (b : bool) (a : CameraApp) :=
  mkCameraApp (args_device a) (args_fps a) (actual_w a) (actual_h a)
    (output_dir a) b (async_recorder a) (current_fps a) (hw_configured a).
Definition set_async_recorder (r : option (system frame)) (a : CameraApp) :=
  mkCameraApp (args_device a) (args_fps a) (actual_w a) (actual_h a)
    (output_dir a) (is_running a) r (current_fps a) (hw_configured a).
Definition set_current_fps (x : Q) (a : CameraApp) :=
  mkCameraApp (args_device a) (args_fps a) (actual_w a) (actual_h a)
    (output_dir a) (is_running a) (async_recorder a) x (hw_configured a).
Definition set_hw_configured (b : bool) (a : CameraApp) :=
  mkCameraApp (args_device a) (args_fps a) (actual_w a) (actual_h a)
    (output_dir a) (is_running a) (async_recorder a) (current_fps a) b.

(** Where the main thread stands. *)
Inductive app_pc :=
| AtRead                          (* at the test of the [while] *)
| InControls (f : frame)          (* in [subprocess.run], for the latch *)
| AtKey (f : frame)               (* frame pushed, before the preview *)
| InToggle                        (* in [stop], called by [toggle_recording] *)
| ToCleanup                       (* left the loop *)
| InCleanup                       (* in [cleanup], at or in [stop] *)
| Done.                           (* [run] has ended *)

Record machine := mkMachine {
  camera : CameraApp;
  pc : app_pc;
  spare_disk : files;             (* the file system while there is no recorder *)
  shell : list shell_command;     (* the calls of [subprocess.run] *)
  snapshots : list (string * frame);   (* the calls of [cv2.imwrite] *)
  camera_released : bool;
  console : list app_line
}.

Definition set_app (a : CameraApp) (m : machine) :=
  mkMachine a (pc m) (spare_disk m) (shell m) (snapshots m)
            (camera_released m) (console m).
Definition set_pc (p : app_pc) (m : machine) :=
  mkMachine (camera m) p (spare_disk m) (shell m) (snapshots m)
            (camera_released m) (console m).
Definition say (ls : list app_line) (m : machine) :=
  mkMachine (camera m) (pc m) (spare_disk m) (shell m) (snapshots m)
            (camera_released m) (console m ++ ls).
Definition set_recorder (r : option (system frame)) (m : machine) :=
  set_app (set_async_recorder r (camera m)) m.

(** The file system as it is now. *)
Definition world_disk (m : machine) : files :=
  match async_recorder (camera m) with
  | Some r => disk r
  | None => spare_disk m
  end.

(** [__init__] and the head of [run], for a camera that opened. *)
Definition app_init (device fps w h : Z) (d : files) : machine :=
  mkMachine (mkCameraApp device fps w h "captures" true None 0 false)
            AtRead d [] [] false [Rule; Banner; Banner; Rule].

(** [generate_filename], with the time stamp that [strftime] gives. *)
Definition generate_filename (a : CameraApp) (ts ext : string) : string :=
  path_join (output_dir a) ("cam_" +:+ ts +:+ "." +:+ ext).

(** [get_smart_fps] *)
Definition get_smart_fps (a : CameraApp) : Q :=
  if negb (Qle_bool (current_fps a) 5) then current_fps a
  else inject_Z (args_fps a).

(** [apply_stream_active_controls], lines 122-133: up to the call of
    [subprocess.run], which waits for [v4l2-ctl]. *)
Definition controls_enter (m : machine) : machine :=
  let a := camera m in
  mkMachine a (pc m) (spare_disk m)
    (shell m ++ [V4l2_ctl (args_device a) "frame_rate" (args_fps a)])
    (snapshots m) (camera_released m)
    (console m ++ [Ctrl_forcing (args_device a)]).

(** [apply_stream_active_controls], lines 134-137: from the return of
    [subprocess.run]; [ok] tells whether [v4l2-ctl] ran without error. *)
Definition controls_return (ok : bool) (m : machine) : machine :=
  let a := camera m in
  say [if ok then Ctrl_applied "frame_rate" (args_fps a)
       else Ctrl_failed "frame_rate" (args_fps a);
       Ctrl_configured] m.

(** [apply_stream_active_controls] from end to end. *)
Definition apply_stream_active_controls (ok : bool) (m : machine) : machine :=
  controls_return ok (controls_enter m).

(** [run], line 264: the latch is set when the controls have returned. *)
Definition one_shot_done (ok : bool) (m : machine) : machine :=
  let m1 := controls_return ok m in
  set_app (set_hw_configured true (camera m1)) m1.

Definition push_frame (f : frame) (m : machine) : machine :=
  match async_recorder (camera m) with
  | Some r => set_recorder (Some (set_obj (write f (obj r)) r)) m
  | None => m
  end.

(** [toggle_recording], lines 178-197: a new recorder on [mp4v], and a
    second one on [MJPG] when the first does not start. *)
Definition new_recorder (a : CameraApp) (filename : string) (fourcc : Z)
    (rec_fps : Q) (d : files) : system frame :=
  fresh (init filename fourcc rec_fps (actual_w a, actual_h a) 128) d.

Definition toggle_start (ts1 ts2 : string) (m : machine) : machine :=
  let a := camera m in
  let m1 := say [User_start_recording] m in
  let rec_fps := get_smart_fps a in
  let r1 := start (new_recorder a (generate_filename a ts1 "mp4")
                     (VideoWriter_fourcc "m"%char "p"%char "4"%char "v"%char) rec_fps
                     (world_disk m)) in
  if fst r1 then set_recorder (Some (snd r1)) m1
  else
    let r2 := start (new_recorder a (generate_filename a ts2 "avi")
                       (VideoWriter_fourcc "M"%char "J"%char "P"%char "G"%char) rec_fps
                       (disk (snd r1))) in
    set_recorder (Some (snd r2)) (say [Warn_fallback] m1).

(** The two recorders that [toggle_recording] may make: the second one is
    made on the file system as the first attempt left it. *)
Definition first_try (ts1 : string) (m : machine) : system frame :=
  new_recorder (camera m) (generate_filename (camera m) ts1 "mp4")
    (VideoWriter_fourcc "m"%char "p"%char "4"%char "v"%char)
    (get_smart_fps (camera m)) (world_disk m).

Definition second_try (ts1 ts2 : string) (m : machine) : system frame :=
  new_recorder (camera m) (generate_filename (camera m) ts2 "avi")
    (VideoWriter_fourcc "M"%char "J"%char "P"%char "G"%char)
    (get_smart_fps (camera m)) (disk (snd (start (first_try ts1 m)))).

(** The test of [toggle_recording], line 172. *)
Definition recording (a : CameraApp) : bool :=
  match async_recorder a with
  | Some r => is_recording (obj r)
  | None => false
  end.

(** [toggle_recording]: up to the call of [stop], or to the end. *)
Definition toggle_recording (ts1 ts2 : string) (m : machine) : machine :=
  match async_recorder (camera m) with
  | Some r =>
      if is_recording (obj r) then
        set_pc InToggle
          (set_recorder (Some (stop_enter r)) (say [User_stop_recording] m))
      else set_pc AtRead (toggle_start ts1 ts2 m)
  | None => set_pc AtRead (toggle_start ts1 ts2 m)
  end.

(** [save_snapshot] *)
Definition save_snapshot (ts : string) (f : frame) (m : machine) : machine :=
  let name := generate_filename (camera m) ts "jpg" in
  mkMachine (camera m) (pc m) (spare_disk m) (shell m)
            (snapshots m ++ [(name, f)]) (camera_released m)
            (console m ++ [User_snapshot_saved name]).

(** [run], lines 276-287: the preview, then the key. *)
Definition handle_key (cur : Q) (k : Z) (ts1 ts2 : string) (f : frame)
    (m : machine) : machine :=
  let m1 := set_app (set_current_fps cur (camera m)) m in
  let k := Z.land k 255 in
  if k =? 113 then set_pc AtRead (set_app (set_is_running false (camera m1)) m1)
  else if k =? 118 then toggle_recording ts1 ts2 m1
  else if k =? 115 then set_pc AtRead (save_snapshot ts1 f m1)
  else set_pc AtRead m1.

(** [cleanup], lines 229-235. *)
Definition cleanup_enter (m : machine) : machine :=
  let m1 := say [Rule; System_shutting_down] m in
  match async_recorder (camera m1) with
  | Some r =>
      set_pc InCleanup
        (set_recorder (Some (stop_enter r)) (say [System_finalizing] m1))
  | None => set_pc InCleanup m1
  end.

(** [cleanup], lines 237-245; [cap_opened] is what [cap.isOpened()] says. *)
Definition cleanup_finish (cap_opened : bool) (m : machine) : machine :=
  let m1 :=
    if cap_opened then
      mkMachine (camera m) (pc m) (spare_disk m) (shell m) (snapshots m) true
                (console m ++ [System_camera_released])
    else m in
  set_pc Done (say [System_bye; Rule] m1).

(** The recorder is not inside [stop]. *)
Definition recorder_ready (m : machine) : bool :=
  match async_recorder (camera m) with
  | Some r => match caller r with Ready => true | _ => false end
  | None => true
  end.

(** [run], lines 289-292: [KeyboardInterrupt] in the [try] block is
    reported, and [cleanup] runs as on every way out.  The call that the
    main thread was waiting in is given up; when that call is the [stop] of
    [toggle_recording], [async_recorder] still holds the recorder, and
    [cleanup] calls [stop] on it again. *)
Definition interrupted (m : machine) : machine :=
  cleanup_enter (say [System_interrupted] m).

(** The steps of the main thread and, under [Rec], those of the recorder's
    threads.  [Interrupt] is a [KeyboardInterrupt]: inside the [try] block
    it leads to [cleanup]; inside [cleanup], which runs in the [finally]
    clause, it leaves [run] for good.  When [run] has ended the program is
    over, and the thread of the recorder, a daemon, ends with it. *)
Inductive app_label :=
| Read (r : option frame)
| ControlsReturn (v4l2_ok : bool)
| Key (cur : Q) (k : Z) (ts1 ts2 : string)
| Rec (l : label frame)
| ToggleReturn
| CleanupEnter
| CleanupReturn (cap_opened : bool)
| Interrupt.

Definition app_step (l : app_label) (m : machine) : option machine :=
  match l with
  | Read r =>
      match pc m with
      | AtRead =>
          if is_running (camera m) then
            match r with
            | Some f =>
                if hw_configured (camera m)
                then Some (set_pc (AtKey f) (push_frame f m))
                else Some (set_pc (InControls f) (controls_enter m))
            | None => Some (set_pc ToCleanup (say [Error_stream_lost] m))
            end
          else None
      | _ => None
      end
  | ControlsReturn ok =>
      match pc m with
      | InControls f =>
          Some (set_pc (AtKey f) (push_frame f (one_shot_done ok m)))
      | _ => None
      end
  | Key cur k ts1 ts2 =>
      match pc m with
      | AtKey f => Some (handle_key cur k ts1 ts2 f m)
      | _ => None
      end
  | Rec l =>
      if is_call l then None
      else match pc m, async_recorder (camera m) with
           | Done, _ => None
           | _, Some r =>
               match step l r with
               | Some r' => Some (set_recorder (Some r') m)
               | None => None
               end
           | _, None => None
           end
  | ToggleReturn =>
      match pc m, async_recorder (camera m) with
      | InToggle, Some r =>
          if recorder_ready m then
            Some (set_pc AtRead
                    (mkMachine (set_async_recorder None (camera m)) (pc m)
                       (disk r) (shell m) (snapshots m) (camera_released m)
                       (console m)))
          else None
      | _, _ => None
      end
  | CleanupEnter =>
      match pc m with
      | AtRead => if is_running (camera m) then None else Some (cleanup_enter m)
      | ToCleanup => Some (cleanup_enter m)
      | _ => None
      end
  | CleanupReturn cap_opened =>
      match pc m with
      | InCleanup =>
          if recorder_ready m then Some (cleanup_finish cap_opened m) else None
      | _ => None
      end
  | Interrupt =>
      match pc m with
      | Done => None
      | InCleanup => Some (set_pc Done m)
      | _ => Some (interrupted m)
      end
  end.

Fixpoint app_run (tr : list app_label) (m : machine) : option machine :=
  match tr with
  | [] => Some m
  | l :: tr' =>
      match app_step l m with
      | Some m' => app_run tr' m'
      | None => None
      end
  end.

Definition app_final (tr : list app_label) (m : machine) : machine :=
  default m (app_run tr m).

(** A frame has been read. *)
Definition is_frame_read (l : app_label) : bool :=
  match l with
  | Read (Some _) => true
  | _ => false
  end.

Definition is_interrupt (l : app_label) : bool :=
  match l with
  | Interrupt => true
  | _ => false
  end.

(** No [KeyboardInterrupt] in a trace. *)
Definition uninterrupted (tr : list app_label) : bool :=
  negb (existsb is_interrupt tr).

Definition in_controls (p : app_pc) : bool :=
  match p with
  | InControls _ => true
  | _ => false
  end.

(** The lines of a report in what a recorder printed. *)
Definition report_count (r : system frame) : nat :=
  length (List.filter (fun x => match x with Rec_video_saved _ => true
                                            | _ => false end) (stdout r)).

(** The main thread is in the loop, or between the loop and [cleanup]. *)
Definition loop_pc (p : app_pc) : bool :=
  match p with
  | AtRead | InControls _ | AtKey _ | ToCleanup => true
  | _ => false
  end.

(** What holds of the recorder at each point of the main thread: in the loop
    it was never started or it is recording, and has printed no report;
    under [stop] it is stopped and prints its report when [stop] ends. *)
Definition rec_ok (p : app_pc) (r : system frame) : Prop :=
  Inv r ∧ releases r = release_count r ∧
  match p with
  | AtRead | InControls _ | AtKey _ | ToCleanup =>
      report_count r = 0%nat ∧ (idle r ∨ is_recording (obj r) = true)
  | InToggle =>
      stopped r ∧
      report_count r = match caller r with Ready => 1 | _ => 0 end%nat
  | InCleanup =>
      is_recording (obj r) = false ∧
      report_count r = match caller r with Ready => 1 | _ => 0 end%nat
  | Done =>
      is_recording (obj r) = false ∧ caller r = Ready ∧
      report_count r = 1%nat
  end.

Definition AppInv (m : machine) : Prop :=
  match async_recorder (camera m) with
  | Some r => rec_ok (pc m) r
  | None => pc m ≠ InToggle
  end.

(** What is left of that when [cleanup] has come by [KeyboardInterrupt]: the
    recorder may be in its second [stop], and may have printed its report
    twice. *)
Definition rec_weak (r : system frame) : Prop :=
  StopInv r ∧
  (report_count r + match caller r with Ready => 0 | _ => 1 end ≤ 2)%nat.

Definition AppInvW (m : machine) : Prop :=
  match async_recorder (camera m) with
  | Some r =>
      match pc m with
      | InCleanup | Done => rec_weak r
      | p => rec_ok p r
      end
  | None => pc m ≠ InToggle
  end.

(** The steps of the body of the loop. *)
Definition in_loop_body (al : app_label) : bool :=
  match al with
  | Read _ | ControlsReturn _ | Key _ _ _ _ | ToggleReturn => true
  | _ => false
  end.

(** The loop has been left by [q]. *)
Definition quitting (m : machine) : Prop :=
  is_running (camera m) = false ∧
  match pc m with
  | AtRead | InCleanup | Done => True
  | _ => False
  end.

(** What the latch looks at and what it does. *)
Definition latch_view (m : machine) : Z * Z * bool * list shell_command :=
  (args_device (camera m), args_fps (camera m), hw_configured (camera m),
   shell m).

(** The latch along a trace: the command goes out with the first frame,
    the flag is set when the command has returned, and only a
    [KeyboardInterrupt] can part the two for good. *)
Definition latch_ok (device tfps : Z) (tr : list app_label) (m : machine)
    : Prop :=
  args_device (camera m) = device ∧ args_fps (camera m) = tfps ∧
  shell m = (if existsb is_frame_read tr
             then [V4l2_ctl device "frame_rate" tfps] else []) ∧
  (hw_configured (camera m) = true → existsb is_frame_read tr = true) ∧
  (in_controls (pc m) = true →
   hw_configured (camera m) = false ∧ existsb is_frame_read tr = true) ∧
  (uninterrupted tr = false → pc m = InCleanup ∨ pc m = Done) ∧
  (uninterrupted tr = true → in_controls (pc m) = false →
   hw_configured (camera m) = existsb is_frame_read tr).

(** The steps that the threads of the recorder still have to take. *)
Definition app_potential (m : machine) : nat :=
  match async_recorder (camera m) with
  | Some r => potential r
  | None => 0
  end.

Definition is_rec (al : app_label) : bool :=
  match al with
  | Rec _ => true
  | _ => false
  end.

(** The steps of the recorder's threads in a trace, and the others. *)
Definition rec_steps (tr : list app_label) : nat :=
  length (List.filter is_rec tr).

Definition main_steps (tr : list app_label) : nat :=
  length (List.filter (fun al => negb (is_rec al)) tr).
End App.
Arguments CameraApp frame {cv2}.
Arguments machine frame {cv2}.
Arguments app_label : clear implicits.

(** ** A small encoder to run the model on

    Frames are numbers.  A negative fourcc makes the constructor raise, fourcc
    0 is a codec the encoder does not have (the object is built but not
    opened, and no file is made), any other fourcc creates an empty file and
    every frame then adds 1000 bytes to it. *)
Definition fake_VideoWriter (path : string) (fourcc : Z) (fps : Q)
    (frame_size : Z * Z) (d : files) : (exn + bool * string) * files :=
  if fourcc <? 0 then (inl (Cv2Error "bad fourcc"), d)
  else if fourcc =? 0 then (inr (false, path), d)
  else (inr (true, path), file_put path 0 d).

#[export] Instance fake_cv2 : Cv2 nat := {|
  VW := bool * string;
  VideoWriter := fake_VideoWriter;
  isOpened := fst;
  VideoWriter_write := fun _ vw d =>
    (vw, if fst vw then file_grow (snd vw) 1000 d else d);
  VideoWriter_release := fun vw d => ((false, snd vw), d)
|}.

(** A recorder on the default codec, with room for [n] queue items. *)
Definition demo (n : Z) : system nat :=
  fresh (init "captures/cam.mp4" 1 30 (1920, 1080) n) no_files.

(** The same, with a codec the encoder lacks and a file already there. *)
Definition demo_unsupported : system nat :=
  fresh (init "captures/cam.mp4" 0 30 (1920, 1080) 128)
        (file_put "captures/cam.mp4" 4096 no_files).

(** Two frames through a queue of two, the consumer keeping up, then
    [stop] to its end. *)
Definition drain_trace : list (label nat) :=
  [CallWrite 10%nat; Get; CallWrite 20%nat; Process; CallStop; Get; StopPut;
   Process; Get; Process; StopJoin].

(** Three frames at a queue of one with the consumer paused, [stop] to its
    end, and a frame after that. *)
Definition overflow_trace : list (label nat) :=
  [CallWrite 1%nat; CallWrite 2%nat; CallWrite 3%nat; CallStop; Get; StopPut;
   Process; Get; Process; StopJoin; CallWrite 9%nat].

(** [start] and [stop] to its end, with no frame. *)
Definition empty_session : list (label nat) :=
  [CallStart; CallStop; StopPut; Get; Process; StopJoin].

(** [stop] called on a full queue of one. *)
Definition stop_on_full : list (label nat) :=
  [CallStart; CallWrite 1%nat; CallStop].

(** One frame through a queue of two, taken by the consumer. *)
Definition held_trace : list (label nat) :=
  [CallStart; CallWrite 10%nat; Get].

(** Two frames fill a queue of two, then [stop] to its end: the [put] of the
    sentinel has to wait for the first [get]. *)
Definition full_then_stop : list (label nat) :=
  [CallStop; Get; StopPut; Process; Get; Process; Get; Process; StopJoin].

(** A camera on [/dev/video0] at 30 frames a second. *)
Definition demo_app : machine nat := app_init 0 30 1920 1080 no_files.

(** The first frame, and [v] to start a recording. *)
Definition session_start : list (app_label nat) :=
  [Read (Some 1%nat); ControlsReturn true;
   Key 0 118 "20260101_120000" "20260101_120001"].

(** Two more frames while the consumer works. *)
Definition session_frames : list (app_label nat) :=
  [Read (Some 2%nat); Key 31 255 "" ""; Rec Get; Rec Process;
   Read (Some 3%nat)].

(** [v] again: the recording is stopped and given up. *)
Definition session_stop : list (app_label nat) :=
  [Key 31 118 "" ""; Rec Get; Rec StopPut; Rec Process; Rec Get; Rec Process;
   Rec StopJoin; ToggleReturn].

(** [v] again and Ctrl+C when [stop] has just returned: [cleanup] calls
    [stop] once more. *)
Definition session_stop_interrupted : list (app_label nat) :=
  [Key 31 118 "" ""; Rec Get; Rec StopPut; Rec Process; Rec Get; Rec Process;
   Rec StopJoin; Interrupt; CleanupReturn true].

(** [v] again and Ctrl+C while [stop] waits at [join]: the second [stop]
    puts a second sentinel. *)
Definition session_join_interrupted : list (app_label nat) :=
  [Key 31 118 "" ""; Rec Get; Rec StopPut; Interrupt; Rec StopPut].

(** Ctrl+C while [v4l2-ctl] runs for the first frame. *)
Definition session_controls_interrupted : list (app_label nat) :=
  [Read (Some 1%nat); Interrupt; CleanupReturn true].

(** [q] while recording: [cleanup] stops the recorder. *)
Definition session_quit_recording : list (app_label nat) :=
  [Key 31 113 "" ""; CleanupEnter; Rec Get; Rec StopPut; Rec Process; Rec Get;
   Rec Process; Rec StopJoin; CleanupReturn true].

(** ** Invariants of the reachable states *)

Section Proofs.
Context {frame : Type} {cv2 : Cv2 frame}.
Implicit Types (s : system frame) (l : label frame) (tr : list (label frame)).

Ltac open_state s :=
  let w := fresh "w" in
  let q := fresh "q" in
  destruct s as [w ? ? ? ? ? ?]; destruct w as [? ? ? ? q ? ? ? ?];
  destruct q as [? ?]; simpl in *.

(** Read the boolean tests of the code as arithmetic facts. *)
Ltac bool_facts :=
  repeat match goal with
    | H : negb _ = true |- _ => apply negb_true_iff in H
    | H : negb _ = false |- _ => apply negb_false_iff in H
    | H : _ && _ = true |- _ => apply andb_true_iff in H; destruct H
    | H : _ && _ = false |- _ => apply andb_false_iff in H
    | H : (_ <? _) = true |- _ => apply Z.ltb_lt in H
    | H : (_ <? _) = false |- _ => apply Z.ltb_ge in H
    | H : (_ <=? _) = true |- _ => apply Z.leb_le in H
    | H : (_ <=? _) = false |- _ => apply Z.leb_gt in H
    end.

Ltac step_cases H :=
  unfold step, stop_put, stop_join, consumer_get, consumer_process,
    stop_enter, stop_finish, start, write, put_nowait, put, get, full in H;
  simpl in H;
  repeat match type of H with
    | context [?a <? ?b] => destruct (a <? b) eqn:?; simpl in H
    | context [?a <=? ?b] => destruct (a <=? b) eqn:?; simpl in H
    | context [match ?x with [] => _ | _ :: _ => _ end] =>
        destruct x eqn:?; simpl in H
    | context [match ?x with _ => _ end] => destruct x eqn:?; simpl in H
    end;
  try discriminate; simplify_eq; simpl in *; bool_facts.

Ltac phases s HI :=
  open_state s;
  match goal with
  | c : consumer_state, p : caller_state |- _ =>
      destruct c as [| |[?|]|]; destruct p
  end;
  unfold Inv, idle, closed, live in HI; simpl in HI;
  destruct HI as [? HI]; try (exfalso; exact HI);
  destruct_and?; simplify_eq; simpl in *.

Lemma Inv_fresh fn fc fp fs n d : Inv (fresh (init fn fc fp fs n) d).
Proof. unfold Inv, idle; simpl. split; [lia | done]. Qed.

Lemma Inv_step l s s' : Inv s → step l s = Some s' → Inv s'.
Proof.
  intros HI Hs. phases s HI.
  all: destruct l; step_cases Hs.
  all: unfold Inv, idle, closed, live; simpl.
  all: try (split; [ try (intros; rewrite ?length_app; simpl; lia) | ]).
  all: try done.
  all: try (split_and?; try done; try (apply Forall_app; split; [done|by repeat constructor])).
  all: try (by eexists).
  all: try (by match goal with H : Forall _ (_ :: _) |- _ => inversion H as [|? ? [? ?] ?]; simplify_eq end).
  match goal with H : ∃ _, _ |- _ => destruct H as (q0 & Heq & HF) end.
  destruct q0 as [|y q0]; simpl in Heq; simplify_eq; [done|].
  inversion HF as [|? ? [? ?] ?]; simplify_eq. eauto 6.
Qed.

Lemma run_cons l tr s : run (l :: tr) s = step l s ≫= run tr.
Proof. simpl. by destruct (step l s). Qed.

Lemma run_app tr1 tr2 s : run (tr1 ++ tr2) s = run tr1 s ≫= run tr2.
Proof.
  revert s. induction tr1 as [|l tr1 IH]; intros s; simpl; [done|].
  destruct (step l s); simpl; [apply IH | done].
Qed.

Lemma Inv_run tr s s' : Inv s → run tr s = Some s' → Inv s'.
Proof.
  revert s. induction tr as [|l tr IH]; intros s HI Hr; simpl in Hr.
  - by simplify_eq.
  - destruct (step l s) as [s1|] eqn:Hs; [|done]. eauto using Inv_step.
Qed.

Lemma collect_app ev tr1 tr2 s s1 :
  run tr1 s = Some s1 →
  collect ev (tr1 ++ tr2) s = collect ev tr1 s ++ collect ev tr2 s1.
Proof.
  revert s. induction tr1 as [|l tr1 IH]; intros s Hr; simpl in *.
  - by simplify_eq.
  - destruct (step l s) as [s'|]; [|done]. by rewrite <- app_assoc, IH.
Qed.

(** No step touches the configuration of the object. *)
Lemma step_config l s s' :
  step l s = Some s' →
  maxsize (queue (obj s')) = maxsize (queue (obj s)) ∧
  filename (obj s') = filename (obj s).
Proof. intros Hs. open_state s. destruct l; by step_cases Hs. Qed.

Lemma run_config tr s s' :
  run tr s = Some s' →
  maxsize (queue (obj s')) = maxsize (queue (obj s)) ∧
  filename (obj s') = filename (obj s).
Proof.
  revert s. induction tr as [|l tr IH]; intros s Hr; simpl in Hr.
  - by simplify_eq.
  - destruct (step l s) as [s1|] eqn:Hs; [|done].
    destruct (step_config _ _ _ Hs) as [<- <-]. by apply IH.
Qed.

Lemma frames_of_app (q1 q2 : list (option frame)) :
  frames_of (q1 ++ q2) = frames_of q1 ++ frames_of q2.
Proof. apply omap_app. Qed.

Lemma frames_of_length (q : list (option frame)) :
  Forall is_Some q → length (frames_of q) = length q.
Proof.
  induction 1 as [|x q [f ->] _ IH]; simpl; [done|]. by rewrite IH.
Qed.

(** Frames are neither lost nor made up: what is written or on its way
    grows by exactly what the queue accepts. *)
Lemma conserve_step l s s' :
  Inv s → step l s = Some s' →
  written s' ++ pending s' = written s ++ pending s ++ accepted l s.
Proof.
  intros HI Hs. phases s HI.
  all: destruct l; unfold accepted, pending, full; simpl;
    step_cases Hs; unfold pending; simpl.
  all: rewrite ?frames_of_app, ?app_nil_r, <- ?app_assoc; simpl;
    rewrite ?app_nil_r; try done.
  all: try by match goal with H : is_Some None |- _ => destruct H end.
  all: by match goal with o : option frame |- _ => destruct o end.
Qed.

Lemma conserve_run tr s s' :
  Inv s → run tr s = Some s' →
  written s' ++ pending s' = written s ++ pending s ++ collect accepted tr s.
Proof.
  revert s. induction tr as [|l tr IH]; intros s HI Hr; simpl in *.
  - simplify_eq. by rewrite app_nil_r.
  - destruct (step l s) as [s1|] eqn:Hs; [|done].
    rewrite (IH s1) by eauto using Inv_step.
    rewrite (app_assoc (written s1)), (conserve_step l s s1) by done.
    by rewrite <- !app_assoc.
Qed.

(** The counter moves only when the queue rejects a frame, by one. *)
Lemma dropped_step l s s' :
  Inv s → step l s = Some s' →
  dropped_frames (obj s') =
    dropped_frames (obj s) + Z.of_nat (length (rejected l s)).
Proof.
  intros HI Hs. phases s HI.
  all: destruct l; unfold rejected, full; simpl; step_cases Hs; lia.
Qed.

Lemma dropped_run tr s s' :
  Inv s → run tr s = Some s' →
  dropped_frames (obj s') =
    dropped_frames (obj s) + Z.of_nat (length (collect rejected tr s)).
Proof.
  revert s. induction tr as [|l tr IH]; intros s HI Hr; simpl in *.
  - simplify_eq. lia.
  - destruct (step l s) as [s1|] eqn:Hs; [|done].
    rewrite (IH s1), (dropped_step l s s1) by eauto using Inv_step.
    rewrite length_app. lia.
Qed.

(** An offered frame is either accepted or rejected. *)
Lemma offered_split tr s :
  length (collect offered tr s) =
    (length (collect accepted tr s) + length (collect rejected tr s))%nat.
Proof.
  revert s. induction tr as [|l tr IH]; intros s; simpl; [done|].
  destruct (step l s) as [s1|]; [|done].
  rewrite !length_app, IH.
  destruct l; simpl; try lia.
  destruct (is_recording (obj s)), (full (queue (obj s))); simpl; lia.
Qed.

Lemma accepted_sublist tr s :
  collect accepted tr s `sublist_of` collect offered tr s.
Proof.
  revert s. induction tr as [|l tr IH]; intros s; simpl; [done|].
  destruct (step l s) as [s1|]; [|done].
  apply sublist_app; [|done].
  destruct l; simpl; try done.
  destruct (is_recording (obj s)), (full (queue (obj s))); simpl;
    try done. by apply sublist_nil_l.
Qed.

(** Every step uses up one unit of potential; only a call refills it. *)
Lemma potential_step l s s' :
  step l s = Some s' →
  (potential s' + 1 ≤ potential s + if is_call l then cost l else 0)%nat.
Proof.
  intros Hs. open_state s. unfold potential.
  destruct l; step_cases Hs; rewrite ?length_app; simpl; lia.
Qed.

Lemma run_length tr s s' :
  run tr s = Some s' →
  (length tr + potential s' ≤ potential s + budget tr)%nat.
Proof.
  revert s. induction tr as [|l tr IH]; intros s Hr; simpl in *.
  - simplify_eq. lia.
  - destruct (step l s) as [s1|] eqn:Hs; [|done].
    pose proof (potential_step _ _ _ Hs). pose proof (IH _ Hr).
    unfold budget, calls in *. simpl. destruct (is_call l); simpl; lia.
Qed.

Lemma full_nil {A} n : full (mkQueue (A:=A) n []) = false.
Proof.
  unfold full; cbn [items maxsize length]. change (Z.of_nat 0) with 0.
  destruct (Z.ltb_spec 0 n), (Z.leb_spec n 0); simpl; try done; lia.
Qed.

(** A caller inside [stop] is never stuck: its own next step can run, or
    the consumer can. *)
Lemma progress s :
  Inv s → caller s ≠ Ready →
  ∃ l s', is_call l = false ∧ step l s = Some s'.
Proof.
  intros HI Hc. phases s HI; try done.
  - (* waiting, [put] pending: an empty queue has room, otherwise [get] *)
    destruct items0 as [|x rest].
    + exists StopPut. unfold step, stop_put, put; simpl.
      rewrite full_nil. by eexists.
    + exists Get. by eexists.
  - (* waiting for the sentinel that is in the queue *)
    match goal with H : ∃ _, _ |- _ => destruct H as (q0 & -> & _) end.
    exists Get. destruct q0; by eexists.
  - exists Process. unfold step, consumer_process; simpl.
    match goal with H : is_Some ?w |- _ =>
      is_var w; destruct H as [vw ->] end.
    destruct (VideoWriter_write f vw disk0). by eexists.
  - exists Process. unfold step, consumer_process; simpl.
    match goal with H : is_Some ?w |- _ =>
      is_var w; destruct H as [vw ->] end.
    destruct (VideoWriter_write f vw disk0). by eexists.
  - exists Process. by eexists.
  - exists StopJoin. by eexists.
Qed.

(** Only [stop] ends a recording. *)
Lemma recording_step l s s' :
  is_recording (obj s) = true → l ≠ CallStop → step l s = Some s' →
  is_recording (obj s') = true.
Proof. intros Hr Hl Hs. open_state s. destruct l; by step_cases Hs. Qed.

Lemma recording_run tr s s' :
  is_recording (obj s) = true → Forall (λ l, l ≠ CallStop) tr →
  run tr s = Some s' →
  is_recording (obj s') = true ∧ collect offered tr s = written_calls tr.
Proof.
  revert s. induction tr as [|l tr IH]; intros s Hr Hn Hs; simpl in *.
  - by simplify_eq.
  - destruct (step l s) as [s1|] eqn:Hs1; [|done].
    inversion Hn as [|? ? Hl Hn']; subst.
    destruct (IH s1) as [? ->]; eauto using recording_step.
    split; [done|]. destruct l; simpl; try done. by rewrite Hr.
Qed.

Lemma stopped_step l s s' : stopped s → step l s = Some s' → stopped s'.
Proof.
  intros [Hr Hc] Hs. open_state s. unfold stopped.
  destruct l; by step_cases Hs.
Qed.

Lemma stopped_run tr s s' :
  stopped s → run tr s = Some s' →
  stopped s' ∧ collect offered tr s = [].
Proof.
  revert s. induction tr as [|l tr IH]; intros s Hst Hs; simpl in *.
  - by simplify_eq.
  - destruct (step l s) as [s1|] eqn:Hs1; [|done].
    destruct (IH s1) as [? ->]; eauto using stopped_step.
    split; [done|]. destruct Hst as [Hr _].
    destruct l; simpl; try done. by rewrite Hr.
Qed.

Lemma offered_nil tr s :
  collect offered tr s = [] →
  collect accepted tr s = [] ∧ collect rejected tr s = [].
Proof.
  intros Ho. pose proof (offered_split tr s) as Hl. rewrite Ho in Hl.
  simpl in Hl. split; apply length_zero_iff_nil; lia.
Qed.

Lemma last_report_print out fn sz n (s : system frame) :
  stdout s = out ++ [Rec_video_saved fn; Rec_size_dropped sz n] →
  last_report s = Some (fn, sz, n).
Proof.
  intros Ho. unfold last_report. rewrite Ho, reverse_app. done.
Qed.

(** Once [stop] has returned, its report is the last thing printed. *)
Lemma closed_report_step l s s' :
  Inv s → (closed s → last_report s = Some (report s)) →
  step l s = Some s' →
  closed s' → last_report s' = Some (report s').
Proof.
  intros HI Hrep Hs Hc. phases s HI.
  all: destruct l; unfold closed, report in *; simpl in *;
    step_cases Hs; destruct_and?; simplify_eq; simpl.
  all: try (by eapply last_report_print).
  all: try (apply Hrep; done).
  all: try by match goal with H : is_Some None |- _ => destruct H end.
Qed.

Lemma closed_report_run tr s s' :
  Inv s → (closed s → last_report s = Some (report s)) →
  run tr s = Some s' →
  closed s' → last_report s' = Some (report s').
Proof.
  revert s. induction tr as [|l tr IH]; intros s HI Hrep Hs; simpl in *.
  - by simplify_eq.
  - destruct (step l s) as [s1|] eqn:Hs1; [|done].
    apply (IH s1); eauto using Inv_step, closed_report_step.
Qed.

(** A thread, once spawned, is never unspawned. *)
Lemma started_step l s s' :
  consumer s ≠ NotStarted → step l s = Some s' → consumer s' ≠ NotStarted.
Proof. intros Hc Hs. open_state s. destruct l; by step_cases Hs. Qed.

Lemma started_run tr s s' :
  consumer s ≠ NotStarted → run tr s = Some s' → consumer s' ≠ NotStarted.
Proof.
  revert s. induction tr as [|l tr IH]; intros s Hc Hr; simpl in Hr.
  - by simplify_eq.
  - destruct (step l s) as [s1|] eqn:Hs; [|done].
    eauto using started_step.
Qed.

(** ** [stop] called again

    What the queue and the two threads look like when a [stop] that was
    left by an exception is followed by another. *)

Lemma sentinels_snoc (q : list (option frame)) :
  sentinels (q ++ [None]) = S (sentinels q).
Proof. induction q as [|[f|] q IH]; simpl; by rewrite ?IH. Qed.

Lemma sentinels_last_snoc (q : list (option frame)) :
  sentinels_last q = true → sentinels_last (q ++ [None]) = true.
Proof.
  induction q as [|[f|] q IH]; simpl; try done.
  intros H. by rewrite forallb_app, H.
Qed.

Lemma all_sentinels (q : list (option frame)) :
  forallb is_sentinel q = true → sentinels q = length q.
Proof.
  induction q as [|[f|] q IH]; simpl; try done. intros H. by rewrite IH.
Qed.

Lemma all_sentinels_none (q : list (option frame)) :
  forallb is_sentinel q = true → (sentinels q ≤ 0)%nat → q = [].
Proof.
  intros H%all_sentinels Hn. apply length_zero_iff_nil. lia.
Qed.

Lemma all_sentinels_one (q : list (option frame)) :
  forallb is_sentinel q = true → (sentinels q ≤ 1)%nat → q = [] ∨ q = [None].
Proof.
  destruct q as [|[f|] q]; simpl; try done; [by left|].
  intros H Hn. right. f_equal. apply all_sentinels_none; [done|lia].
Qed.

Lemma no_sentinels (q : list (option frame)) :
  Forall is_Some q → sentinels_last q = true ∧ sentinels q = 0%nat.
Proof. induction 1 as [|x q [f ->] _ IH]; simpl; done. Qed.

Lemma one_sentinel (q : list (option frame)) :
  Forall is_Some q →
  sentinels_last (q ++ [None]) = true ∧ sentinels (q ++ [None]) = 1%nat.
Proof.
  intros [H1 H2]%no_sentinels.
  by rewrite sentinels_last_snoc, sentinels_snoc, H2.
Qed.

Ltac stop_phases s HI :=
  open_state s;
  match goal with
  | c : consumer_state, p : caller_state |- _ =>
      destruct c as [| |[?|]|]; destruct p
  end;
  unfold StopInv, idle, live in HI; simpl in HI;
  destruct HI as (? & ? & HI); try (exfalso; exact HI);
  destruct_and?; simplify_eq; simpl in *.

(** A stopped writer that is in its first [stop], or past it. *)
Lemma Inv_StopInv s : Inv s → is_recording (obj s) = false → StopInv s.
Proof.
  intros HI Hr. phases s HI; unfold StopInv, idle, live; simpl;
    try done; split_and?; try done; eauto.
  all: try (by apply no_sentinels).
  all: try (by match goal with H : Forall is_Some ?q |- _ =>
                 destruct (no_sentinels q H) as [? ->]; lia end).
  all: match goal with H : ∃ _, _ |- _ => destruct H as (q0 & -> & HF) end;
    destruct (one_sentinel q0 HF) as [Hsl Hsn]; rewrite ?Hsl, ?Hsn; done || lia.
Qed.

Lemma StopInv_step l s s' :
  is_call l = false → StopInv s → step l s = Some s' → StopInv s'.
Proof.
  intros Hl HI Hs. stop_phases s HI.
  all: destruct l; try done; step_cases Hs.
  all: unfold StopInv, idle, live; simpl.
  all: split; [try (intros; rewrite ?length_app; simpl in *; lia)|].
  all: split; [done|].
  all: try match goal with o : option frame |- _ => destruct o end;
    simpl in *.
  all: rewrite ?sentinels_snoc; split_and?; eauto; try done; try lia.
  all: try (by apply sentinels_last_snoc).
  all: try (apply all_sentinels_none; [done|lia]).
  all: try (apply all_sentinels_one; [done|lia]).
  all: try (destruct_or?; simplify_eq; eauto; done).
Qed.

(** A caller inside [stop] is not stuck the second time either. *)
Lemma StopInv_progress s :
  StopInv s → caller s ≠ Ready →
  ∃ l s', is_call l = false ∧ step l s = Some s'.
Proof.
  intros HI Hc. stop_phases s HI; try done.
  - destruct items0 as [|x rest].
    + exists StopPut. unfold step, stop_put, put; simpl.
      rewrite full_nil. by eexists.
    + exists Get. by eexists.
  - destruct items0 as [|x rest]; [simpl in *; lia|].
    exists Get. by eexists.
  - exists Process. unfold step, consumer_process; simpl.
    match goal with H : is_Some ?w |- _ =>
      is_var w; destruct H as [vw ->] end.
    destruct (VideoWriter_write f vw disk0). by eexists.
  - exists Process. unfold step, consumer_process; simpl.
    match goal with H : is_Some ?w |- _ =>
      is_var w; destruct H as [vw ->] end.
    destruct (VideoWriter_write f vw disk0). by eexists.
  - exists Process. by eexists.
  - exists Process. by eexists.
  - exists StopPut. unfold step, stop_put, put; simpl.
    rewrite full_nil. by eexists.
  - exists StopJoin. by eexists.
Qed.

(** The second [stop], called on a writer that the first has stopped. *)
Lemma StopInv_again s : Inv s → stopped s → StopInv (stop_enter s).
Proof.
  intros HI [Hr Hc]. phases s HI; try done.
  all: unfold stop_enter, stop_finish, StopInv, idle, live; simpl.
  all: repeat match goal with H : is_Some ?w |- _ =>
         is_var w; destruct H as [? ->] end; simpl.
  all: split_and?; eauto; try done.
  all: try (by apply no_sentinels).
  all: try (by match goal with H : Forall is_Some ?q |- _ =>
                 destruct (no_sentinels q H) as [? ->]; lia end).
  all: match goal with H : ∃ _, _ |- _ => destruct H as (q0 & -> & HF) end;
    destruct (one_sentinel q0 HF) as [Hsl Hsn]; rewrite ?Hsl, ?Hsn; done || lia.
Qed.

(** ** The methods, one call at a time *)

(** What a successful [start] leaves behind. *)
Lemma start_true s s0 :
  start s = (true, s0) →
  is_recording (obj s0) = true ∧ dropped_frames (obj s0) = 0 ∧
  consumer s0 = Waiting ∧ caller s0 = caller s ∧
  queue (obj s0) = queue (obj s) ∧ filename (obj s0) = filename (obj s) ∧
  written s0 = written s ∧ releases s0 = releases s.
Proof.
  unfold start. intros Hs.
  destruct (VideoWriter _ _ _ _ _) as [[e|vw] d']; [done|].
  destruct (isOpened vw); simpl in Hs; by simplify_eq.
Qed.

Lemma start_fresh_Inv fn fc fp fs n d r s0 :
  start (fresh (init fn fc fp fs n) d) = (r, s0) → Inv s0.
Proof.
  intros Hs. apply (Inv_step CallStart (fresh (init fn fc fp fs n) d)).
  - apply Inv_fresh.
  - simpl. by rewrite Hs.
Qed.

(** [stop] on a writer without thread and without encoder: only the report. *)
Lemma stop_no_thread s :
  caller s = Ready → is_recording (obj s) = false →
  thread (obj s) = None → writer (obj s) = None →
  step CallStop s = Some (print (report_lines s) s).
Proof. intros. open_state s. by simplify_eq. Qed.

Lemma stopped_ready_closed s :
  Inv s → stopped s → caller s = Ready → closed s.
Proof. intros HI [Hr Hc] Hp. by phases s HI. Qed.

(** C5 (submit contract): [write] is a step that every state offers, so it
    never blocks and never fails.  It leaves the object as it is when the
    writer is not recording; when it is recording the frame goes to the
    tail of the queue if the queue has room, and otherwise the counter of
    dropped frames goes up by one and nothing else changes. *)
Theorem write_contract (f : frame) s :
  step (CallWrite f) s = Some (set_obj (write f (obj s)) s) ∧
  write f (obj s) =
    (if is_recording (obj s) then
       if full (queue (obj s))
       then set_dropped_frames (dropped_frames (obj s) + 1) (obj s)
       else set_queue (enqueue (Some f) (queue (obj s))) (obj s)
     else obj s) ∧
  items (queue (write f (obj s))) =
    items (queue (obj s)) ++ (Some <$> accepted (CallWrite f) s) ∧
  dropped_frames (write f (obj s)) =
    dropped_frames (obj s) + Z.of_nat (length (rejected (CallWrite f) s)).
Proof.
  split; [done|]. unfold write, put_nowait, accepted, rejected.
  destruct (is_recording (obj s)), (full (queue (obj s))); simpl;
    rewrite ?app_nil_r; split_and?; try done; lia.
Qed.

(** C4 (dropped-frame counter): a successful [start] sets the counter to
    0; from there on it never goes down, it counts exactly the frames that
    the full queue rejected, it no longer moves once [stop] is called, and
    the report that [stop] prints when it returns carries that value. *)
Theorem dropped_counter_semantics fn fc fp fs n d s0 tr0 tr1 tr2 sa s1 s2 :
  start (fresh (init fn fc fp fs n) d) = (true, s0) →
  run tr0 s0 = Some sa →
  run tr1 sa = Some s1 →
  run (CallStop :: tr2) s1 = Some s2 →
  dropped_frames (obj s0) = 0 ∧
  (∀ s, fst (start s) = true → dropped_frames (obj (snd (start s))) = 0) ∧
  dropped_frames (obj sa) ≤ dropped_frames (obj s1) ∧
  dropped_frames (obj s1) =
    Z.of_nat (length (collect rejected (tr0 ++ tr1) s0)) ∧
  dropped_frames (obj s2) = dropped_frames (obj s1) ∧
  (caller s2 = Ready →
   last_report s2 =
     Some (fn, size_mb (disk s2) fn, dropped_frames (obj s1))).
Proof.
  intros Hst H0 H1 H2.
  pose proof (start_fresh_Inv _ _ _ _ _ _ _ _ Hst) as HI0.
  destruct (start_true _ _ Hst) as (Hrec & Hd0 & Hc0 & _ & _ & Hfn & _).
  assert (Inv sa) as HIa by eauto using Inv_run.
  assert (Inv s1) as HI1 by eauto using Inv_run.
  assert (run (tr0 ++ tr1) s0 = Some s1) as H01
    by (rewrite run_app, H0; done).
  rewrite run_cons in H2.
  destruct (step CallStop s1) as [s1'|] eqn:Hs1; [simpl in H2|done].
  assert (Inv s1') as HI1' by eauto using Inv_step.
  assert (stopped s1') as Hstop.
  { split.
    - clear -Hs1. open_state s1. by step_cases Hs1.
    - eapply started_step; [|done].
      eapply started_run; [|done]. by rewrite Hc0. }
  destruct (stopped_run _ _ _ Hstop H2) as [Hstop2 Hoff].
  destruct (offered_nil _ _ Hoff) as [_ Hrej].
  pose proof (dropped_run _ _ _ HIa H1) as Hd1.
  pose proof (dropped_run _ _ _ HI0 H01) as Hd01.
  pose proof (dropped_run _ _ _ HI1' H2) as Hd2.
  pose proof (dropped_step _ _ _ HI1 Hs1) as Hd1'.
  rewrite Hrej in Hd2. simpl in Hd1', Hd2.
  split_and?; try lia.
  - intros s Hs. destruct (start s) as [r sx] eqn:Hsx. simpl in *. subst r.
    by destruct (start_true _ _ Hsx) as (_ & ? & _).
  - intros Hready.
    assert (Inv s2) as HI2 by eauto using Inv_run.
    pose proof (stopped_ready_closed _ HI2 Hstop2 Hready) as Hcl.
    assert (run (tr0 ++ tr1 ++ CallStop :: tr2) s0 = Some s2) as Hall.
    { rewrite app_assoc, run_app, H01.
      change (run (CallStop :: tr2) s1 = Some s2).
      by rewrite run_cons, Hs1. }
    rewrite (closed_report_run _ s0 s2 HI0 ltac:(intros (_ & _ & Hc & _); congruence) Hall Hcl).
    unfold report. destruct (run_config _ _ _ Hall) as [_ ->].
    rewrite Hfn. simpl. do 2 f_equal. lia.
Qed.

(** C7 (start failure), as the code has it: when the encoder cannot be
    opened on an idle writer, [start] returns [False], the object is
    unchanged and still idle, no thread is spawned, nothing is written or
    released, and the file system is left exactly as the attempt to open
    the encoder left it; [start] neither creates nor removes a file, so no
    file is at the target path when that attempt left none. *)
Theorem start_failure_contract s :
  idle s → open_fails s = true →
  fst (start s) = false ∧
  obj (snd (start s)) = obj s ∧
  idle (snd (start s)) ∧
  written (snd (start s)) = written s ∧
  releases (snd (start s)) = releases s ∧
  disk (snd (start s)) = disk_after_open s ∧
  (disk_after_open s (filename (obj s)) = None →
   disk (snd (start s)) (filename (obj s)) = None).
Proof.
  intros (Hc & Hp & Hr & Ht & Hw & Hq) Hf.
  unfold open_fails, disk_after_open, start, idle in *.
  destruct (VideoWriter _ _ _ _ _) as [[e|vw] d']; simpl in *.
  - split_and?; done.
  - rewrite Hf; simpl.
    assert (set_writer None (obj s) = obj s) as ->.
    { destruct (obj s); simpl in *; by subst. }
    split_and?; done.
Qed.

(** C9 (stop after stop), as the code has it: [stop] has no guard.  On a
    closed writer it changes no field, puts no sentinel, joins and releases
    nothing, and returns at once; but it prints the report again.  On a
    draining writer, which a second call meets when the first was left by an
    exception, [stop] runs in full again: its head changes no field, but it
    goes on to [put], where it waits while the queue is full and then puts a
    second sentinel behind what the queue holds, and from there to [join],
    where it waits until the consumer has exited. *)
Theorem stop_when_closed s :
  (closed s →
   step CallStop s = Some (print (report_lines s) s) ∧
   closed (print (report_lines s) s) ∧
   obj (print (report_lines s) s) = obj s ∧
   releases (print (report_lines s) s) = releases s ∧
   stdout (print (report_lines s) s) = stdout s ++ report_lines s) ∧
  (draining s →
   stop_enter s = set_caller InStopPut s ∧
   (full (queue (obj s)) = true → stop_put (stop_enter s) = None) ∧
   (full (queue (obj s)) = false →
    ∃ s1, stop_put (stop_enter s) = Some s1 ∧
      caller s1 = InStopJoin ∧
      items (queue (obj s1)) = items (queue (obj s)) ++ [None] ∧
      sentinels (items (queue (obj s1)))
        = S (sentinels (items (queue (obj s)))) ∧
      (consumer s ≠ Exited → stop_join s1 = None) ∧
      (consumer s = Exited → is_Some (stop_join s1)))).
Proof.
  split.
  - intros (Hc & Hp & Hr & Ht & Hw & Hq).
    split; [by apply stop_no_thread|]. by unfold closed.
  - intros [Hr [t Ht]].
    assert (stop_enter s = set_caller InStopPut s) as He.
    { unfold stop_enter. open_state s. by simplify_eq. }
    rewrite He. split; [done|]. unfold stop_put, put. simpl.
    split; [by intros ->|]. intros ->. eexists. split; [done|]. simpl.
    split_and?; try done.
    + apply sentinels_snoc.
    + intros Hc. unfold stop_join. simpl. by destruct (consumer s).
    + intros Hc. unfold stop_join. simpl. rewrite Hc. by eexists.
Qed.

(** C10 (stop without a successful start): on a writer that was only
    constructed, or whose [start] returned [False], [stop] is one step
    that raises nothing and does not wait: thread and writer are [None],
    so no sentinel is put, nothing is joined or released and no field
    changes.  It still prints the report, with 0 dropped frames, and with
    size 0 when there is no file at the path. *)
Theorem stop_without_start fn fc fp fs n d s :
  s = fresh (init fn fc fp fs n) d ∨
  start (fresh (init fn fc fp fs n) d) = (false, s) →
  thread (obj s) = None ∧ writer (obj s) = None ∧
  step CallStop s = Some (print (report_lines s) s) ∧
  obj (print (report_lines s) s) = obj s ∧
  caller (print (report_lines s) s) = Ready ∧
  releases (print (report_lines s) s) = 0%nat ∧
  last_report (print (report_lines s) s)
    = Some (fn, size_mb (disk s) fn, 0) ∧
  (disk s fn = None →
   last_report (print (report_lines s) s) = Some (fn, 0%Q, 0)).
Proof.
  intros Hs.
  assert (idle s ∧ filename (obj s) = fn ∧ dropped_frames (obj s) = 0
          ∧ releases s = 0%nat) as ((Hc & Hp & Hr & Ht & Hw & Hq) & Hfn & Hd & Hrel).
  { destruct Hs as [->|Hs]; [done|].
    unfold start in *. simpl in *.
    destruct (VideoWriter _ _ _ _ _) as [[e|vw] d']; simpl in *.
    - by simplify_eq.
    - destruct (isOpened vw); simpl in *; by simplify_eq. }
  assert (last_report (print (report_lines s) s)
          = Some (fn, size_mb (disk s) fn, 0)) as Hrep.
  { eapply last_report_print. unfold report_lines. simpl.
    by rewrite Hfn, Hd. }
  split_and?; try done.
  - by apply stop_no_thread.
  - intros Hnone. rewrite Hrep. unfold size_mb. by rewrite Hnone.
Qed.

(** ** Traces *)

Lemma offered_calls tr s : collect offered tr s `sublist_of` written_calls tr.
Proof.
  revert s. induction tr as [|l tr IH]; intros s; simpl; [done|].
  destruct (step l s) as [s1|]; [|apply sublist_nil_l].
  destruct l; simpl; try apply IH.
  destruct (is_recording (obj s)); simpl.
  - by apply sublist_skip.
  - by apply sublist_cons.
Qed.

(** C2 (FIFO order): whatever the caller and the consumer do, the frames
    written to the encoder are, in order, the first of the frames that the
    queue accepted; those are a subsequence of the frames submitted while
    the writer was recording, which are a subsequence of all the frames
    submitted.  Drops remove frames, nothing is reordered. *)
Theorem fifo_order fn fc fp fs n d tr s :
  run tr (fresh (init fn fc fp fs n) d) = Some s →
  written s `sublist_of` collect offered tr (fresh (init fn fc fp fs n) d) ∧
  written s ++ pending s = collect accepted tr (fresh (init fn fc fp fs n) d) ∧
  collect accepted tr (fresh (init fn fc fp fs n) d)
    `sublist_of` collect offered tr (fresh (init fn fc fp fs n) d) ∧
  collect offered tr (fresh (init fn fc fp fs n) d)
    `sublist_of` written_calls tr.
Proof.
  intros Hr.
  pose proof (conserve_run _ _ _ (Inv_fresh fn fc fp fs n d) Hr) as Hc.
  simpl in Hc. split_and?; try done.
  - etrans; [|apply accepted_sublist]. rewrite <- Hc.
    by apply sublist_inserts_r.
  - apply accepted_sublist.
  - apply offered_calls.
Qed.

Lemma run_write (f : frame) tr s :
  run (CallWrite f :: tr) s = run tr (set_obj (write f (obj s)) s).
Proof. done. Qed.

Lemma collect_write ev (f : frame) tr s :
  collect ev (CallWrite f :: tr) s =
    ev (CallWrite f) s ++ collect ev tr (set_obj (write f (obj s)) s).
Proof. done. Qed.

(** Writes in a row, with the consumer paused. *)
Lemma run_writes_room (fs : list frame) s :
  is_recording (obj s) = true →
  Z.of_nat (length (items (queue (obj s))) + length fs) ≤ maxsize (queue (obj s)) →
  ∃ s', run (CallWrite <$> fs) s = Some s' ∧
    is_recording (obj s') = true ∧
    maxsize (queue (obj s')) = maxsize (queue (obj s)) ∧
    items (queue (obj s')) = items (queue (obj s)) ++ (Some <$> fs) ∧
    dropped_frames (obj s') = dropped_frames (obj s) ∧
    collect accepted (CallWrite <$> fs) s = fs ∧
    collect rejected (CallWrite <$> fs) s = [].
Proof.
  revert s. induction fs as [|f fs IH]; intros s Hrec Hroom.
  - exists s. simpl. by rewrite app_nil_r.
  - assert (full (queue (obj s)) = false) as Hnf.
    { unfold full. simpl in Hroom.
      destruct (Z.ltb_spec 0 (maxsize (queue (obj s)))),
        (Z.leb_spec (maxsize (queue (obj s)))
           (Z.of_nat (length (items (queue (obj s)))))); simpl; try done; lia. }
    assert (write f (obj s)
            = set_queue (enqueue (Some f) (queue (obj s))) (obj s)) as Hw.
    { unfold write, put_nowait. by rewrite Hrec, Hnf. }
    destruct (IH (set_obj (write f (obj s)) s))
      as (s' & Hrun & ? & Hm & Hi & Hd & Ha & Hj).
    + by rewrite Hw.
    + rewrite Hw. simpl. rewrite length_app. simpl in *. lia.
    + exists s'. rewrite fmap_cons, run_write, !collect_write, Hrun, Ha, Hj.
      rewrite Hw in Hm, Hi, Hd. simpl in Hm, Hi, Hd.
      rewrite Hi, Hm, Hd, <- app_assoc. unfold accepted, rejected.
      rewrite Hrec, Hnf. done.
Qed.

Lemma run_write_full (f : frame) s :
  is_recording (obj s) = true → full (queue (obj s)) = true →
  ∃ s', run [CallWrite f] s = Some s' ∧
    items (queue (obj s')) = items (queue (obj s)) ∧
    dropped_frames (obj s') = dropped_frames (obj s) + 1 ∧
    collect accepted [CallWrite f] s = [] ∧
    collect rejected [CallWrite f] s = [f].
Proof.
  intros Hrec Hfull. eexists. split; [done|].
  simpl. unfold write, put_nowait. by rewrite Hrec, Hfull.
Qed.

(** C3 (boundedness), as the code has it: with a capacity [N] of at least
    1 the queue never holds more than [N] items; and [N + 1] frames
    submitted right after [start], with the consumer paused, leave the
    first [N] in the queue, reject exactly the last one and set the
    counter of dropped frames to 1. *)
Theorem boundedness fn fc fp fsz N d s0 (fs : list frame) (f : frame) :
  1 ≤ N →
  start (fresh (init fn fc fp fsz N) d) = (true, s0) →
  Z.of_nat (length fs) = N →
  (∀ tr s, run tr (fresh (init fn fc fp fsz N) d) = Some s →
     Z.of_nat (length (items (queue (obj s)))) ≤ N) ∧
  ∃ s, run (CallWrite <$> (fs ++ [f])) s0 = Some s ∧
    items (queue (obj s)) = Some <$> fs ∧
    collect accepted (CallWrite <$> (fs ++ [f])) s0 = fs ∧
    collect rejected (CallWrite <$> (fs ++ [f])) s0 = [f] ∧
    dropped_frames (obj s) = 1.
Proof.
  intros HN Hst Hlen. split.
  - intros tr s Hr.
    pose proof (Inv_run _ _ _ (Inv_fresh fn fc fp fsz N d) Hr) as [Hb _].
    destruct (run_config _ _ _ Hr) as [Hm _]. simpl in *.
    rewrite Hm in Hb. apply Hb. lia.
  - destruct (start_true _ _ Hst) as (Hrec & Hd0 & _ & _ & Hq & _).
    simpl in Hq.
    destruct (run_writes_room fs s0) as (s1 & Hr1 & Hrec1 & Hm1 & Hi1 & Hd1 & Ha1 & Hj1).
    { done. } { rewrite Hq. simpl. lia. }
    rewrite Hq in Hm1, Hi1. simpl in Hm1, Hi1.
    destruct (run_write_full f s1) as (s2 & Hr2 & Hi2 & Hd2 & Ha2 & Hj2).
    { done. }
    { unfold full. rewrite Hm1, Hi1, length_fmap.
      destruct (Z.ltb_spec 0 N), (Z.leb_spec N (Z.of_nat (length fs)));
        simpl; try done; lia. }
    exists s2. rewrite fmap_app, run_app, Hr1.
    rewrite !(collect_app _ _ _ _ _ Hr1). simpl fmap.
    rewrite Ha1, Ha2, Hj1, Hj2, app_nil_r. simpl.
    split_and?; try done; [congruence | lia].
Qed.

Lemma run_app_inv tr1 tr2 s s' :
  run (tr1 ++ tr2) s = Some s' →
  ∃ s1, run tr1 s = Some s1 ∧ run tr2 s1 = Some s'.
Proof.
  rewrite run_app. destruct (run tr1 s) as [s1|]; [|done]. by exists s1.
Qed.

Lemma write_ignored (f : frame) s :
  is_recording (obj s) = false → step (CallWrite f) s = Some s.
Proof.
  intros Hr. simpl. unfold write. rewrite Hr. simpl. by destruct s.
Qed.

(** C6 (no accept after stop): on a writer that was started, a frame
    submitted once [stop] has been called changes nothing: it is not put in
    the queue and not counted, so it is never written.  The frames offered
    to the queue are those submitted before that call, and when [stop] has
    returned each of them is either written or counted as dropped. *)
Theorem no_accept_after_stop fn fc fp fsz n d s0 tr1 tr2 s (f : frame) :
  start (fresh (init fn fc fp fsz n) d) = (true, s0) →
  Forall (λ l, l ≠ CallStop) tr1 →
  run (tr1 ++ CallStop :: tr2) s0 = Some s →
  step (CallWrite f) s = Some s ∧
  collect offered (tr1 ++ CallStop :: tr2) s0 = written_calls tr1 ∧
  (caller s = Ready →
   written s = collect accepted (tr1 ++ CallStop :: tr2) s0 ∧
   Z.of_nat (length (written s)) + dropped_frames (obj s)
     = Z.of_nat (length (written_calls tr1))).
Proof.
  intros Hst Hn Hrun.
  pose proof (start_fresh_Inv _ _ _ _ _ _ _ _ Hst) as HI0.
  destruct (start_true _ _ Hst) as (Hrec & Hd0 & Hc0 & _ & Hq & _ & Hw0 & _).
  simpl in Hq, Hw0.
  destruct (run_app_inv _ _ _ _ Hrun) as (s1 & H1 & H2).
  destruct (recording_run _ _ _ Hrec Hn H1) as [Hrec1 Hoff1].
  rewrite run_cons in H2.
  destruct (step CallStop s1) as [s1'|] eqn:Hs1; [simpl in H2|done].
  assert (stopped s1') as Hstop.
  { split.
    - clear -Hs1. open_state s1. by step_cases Hs1.
    - eapply started_step; [|done].
      eapply started_run; [|done]. by rewrite Hc0. }
  destruct (stopped_run _ _ _ Hstop H2) as [Hstop2 Hoff2].
  assert (collect offered (tr1 ++ CallStop :: tr2) s0 = written_calls tr1)
    as Hoff.
  { rewrite (collect_app _ _ _ _ _ H1), Hoff1.
    change (collect offered (CallStop :: tr2) s1) with
      (match step CallStop s1 with
       | Some s' => [] ++ collect offered tr2 s' | None => [] end).
    by rewrite Hs1, Hoff2, app_nil_r. }
  split_and?; try done.
  - apply write_ignored, Hstop2.
  - intros Hready.
    assert (Inv s) as HI by eauto using Inv_run.
    destruct (stopped_ready_closed _ HI Hstop2 Hready)
      as (Hce & _ & _ & _ & _ & Hqe).
    pose proof (conserve_run _ _ _ HI0 Hrun) as Hcons.
    pose proof (dropped_run _ _ _ HI0 Hrun) as Hdrop.
    pose proof (offered_split (tr1 ++ CallStop :: tr2) s0) as Hsplit.
    unfold pending in Hcons. rewrite Hce, Hqe, Hq, Hw0, Hc0 in Hcons.
    simpl in Hcons. rewrite app_nil_r in Hcons.
    rewrite Hoff in Hsplit. rewrite Hcons. split; [done|]. lia.
Qed.





(** ** Draining *)

Lemma written_calls_calls tr : written_calls (calls tr) = written_calls tr.
Proof.
  induction tr as [|l tr IH]; simpl; [done|].
  destruct l; simpl; by rewrite ?IH.
Qed.

Lemma written_calls_writes (fs : list frame) tr :
  written_calls ((CallWrite <$> fs) ++ tr) = fs ++ written_calls tr.
Proof.
  induction fs as [|f fs IH]; [done|].
  rewrite fmap_cons. simpl. by rewrite IH.
Qed.

Lemma calls_app tr1 tr2 : calls (tr1 ++ tr2) = calls tr1 ++ calls tr2.
Proof. apply List.filter_app. Qed.

Lemma stop_in_trace tr s s' :
  CallStop ∈ tr → consumer s ≠ NotStarted → run tr s = Some s' → stopped s'.
Proof.
  revert s. induction tr as [|l tr IH]; intros s Hin Hc Hr.
  - by apply elem_of_nil in Hin.
  - rewrite run_cons in Hr.
    destruct (step l s) as [s1|] eqn:Hs; [simpl in Hr|done].
    pose proof (started_step _ _ _ Hc Hs) as Hc1.
    apply elem_of_cons in Hin as [<-|Hin]; [|eauto].
    eapply stopped_run; [|done]. split; [|done].
    clear -Hs. open_state s. by step_cases Hs.
Qed.

Lemma accepted_all tr s :
  collect rejected tr s = [] → collect accepted tr s = collect offered tr s.
Proof.
  revert s. induction tr as [|l tr IH]; intros s; simpl; [done|].
  destruct (step l s) as [s1|]; [|done].
  intros [Hl Hr]%app_eq_nil. rewrite (IH _ Hr). f_equal.
  destruct l; simpl in *; try done.
  by destruct (is_recording (obj s)), (full (queue (obj s))).
Qed.

(** While there is room for the frames still to come, none is rejected. *)
Lemma drain_no_reject tr : ∀ s s' (fs : list frame),
  Inv s → is_recording (obj s) = true →
  Z.of_nat (length (items (queue (obj s))) + length fs)
    ≤ maxsize (queue (obj s)) →
  run tr s = Some s' →
  calls tr `prefix_of` (CallWrite <$> fs) ++ [CallStop] →
  collect rejected tr s = [] ∧ collect offered tr s = written_calls tr.
Proof.
  induction tr as [|l tr IH]; intros s s' fs HI Hrec Hroom Hr Hpre; [done|].
  rewrite run_cons in Hr.
  destruct (step l s) as [s1|] eqn:Hs; [simpl in Hr|done].
  pose proof (Inv_step _ _ _ HI Hs) as HI1.
  change (collect rejected (l :: tr) s) with
    (match step l s with
     | Some s' => rejected l s ++ collect rejected tr s' | None => [] end).
  change (collect offered (l :: tr) s) with
    (match step l s with
     | Some s' => offered l s ++ collect offered tr s' | None => [] end).
  rewrite Hs.
  assert (l = CallStop ∨ l ≠ CallStop) as [->|Hl]
    by (destruct l; (by left) || (by right)).
  - assert (stopped s1) as Hst.
    { split; [clear -Hs; open_state s; by step_cases Hs|].
      eapply started_step; [|done]. clear -HI Hrec. by phases s HI. }
    destruct (stopped_run _ _ _ Hst Hr) as [_ Hoff].
    destruct (offered_nil _ _ Hoff) as [_ ->]. rewrite Hoff.
    split; [done|]. simpl. rewrite <- written_calls_calls.
    destruct Hpre as [k Hk]. destruct fs; simpl in Hk; [|by simplify_eq].
    injection Hk as Hk. symmetry in Hk. apply app_eq_nil in Hk as [-> _].
    done.
  - pose proof (recording_step _ _ _ Hrec Hl Hs) as Hrec1.
    destruct (step_config _ _ _ Hs) as [Hm _].
    destruct l; try done.
    + (* [start] is not among the calls *)
      exfalso. destruct Hpre as [k Hk]. destruct fs; simpl in Hk; by simplify_eq.
    + (* [write]: there is room *)
      destruct Hpre as [k Hk]. destruct fs as [|f' fs]; simpl in Hk; [by simplify_eq|].
      simplify_eq.
      assert (full (queue (obj s)) = false) as Hnf.
      { unfold full. simpl in Hroom.
        destruct (Z.ltb_spec 0 (maxsize (queue (obj s)))),
          (Z.leb_spec (maxsize (queue (obj s)))
             (Z.of_nat (length (items (queue (obj s)))))); simpl; try done; lia. }
      assert (rejected (CallWrite f) s = []) as ->
        by (unfold rejected; by rewrite Hrec, Hnf).
      assert (offered (CallWrite f) s = [f]) as ->
        by (unfold offered; by rewrite Hrec).
      simpl.
      enough (collect rejected tr s1 = [] ∧
              collect offered tr s1 = written_calls tr) as [-> ->] by done.
      apply (IH _ s' fs); try done; [|by eexists].
      simpl in Hs. injection Hs as <-.
      simpl. unfold write, put_nowait. rewrite Hrec, Hnf. simpl.
      rewrite length_app. simpl in *. lia.
    + (* inside [stop]: not while recording *)
      exfalso. clear -HI Hrec Hs. phases s HI; by step_cases Hs.
    + exfalso. clear -HI Hrec Hs. phases s HI; by step_cases Hs.
    + (* [get] *)
      simpl. apply (IH _ s' fs); try done. rewrite Hm.
      clear -Hs Hroom. open_state s. step_cases Hs. lia.
    + (* the rest of the loop body *)
      simpl. apply (IH _ s' fs); try done. rewrite Hm.
      clear -Hs Hroom. open_state s. step_cases Hs; lia.
Qed.

Lemma total_cost_app tr1 tr2 :
  total_cost (tr1 ++ tr2) = (total_cost tr1 + total_cost tr2)%nat.
Proof. induction tr1 as [|l tr1 IH]; simpl; [done|]. rewrite IH. lia. Qed.

Lemma budget_prefix tr (fs : list frame) :
  calls tr `prefix_of` (CallWrite <$> fs) ++ [CallStop] →
  (budget tr ≤ 3 * length fs + 5)%nat.
Proof.
  intros [k Hk]. unfold budget.
  assert (total_cost ((CallWrite <$> fs) ++ [CallStop])
          = (3 * length fs + 5)%nat) as Hsum.
  { clear. induction fs as [|f fs IH]; [done|].
    rewrite fmap_cons. cbn [app total_cost cost length]. rewrite IH. lia. }
  rewrite Hk, total_cost_app in Hsum. lia.
Qed.

(** C1 (drain guarantee): after a successful [start], let the caller
    submit [K ≤ N] frames and then call [stop], while the consumer runs at
    any pace.  Whenever [stop] has returned, exactly those [K] frames have
    been written, in order, no frame was dropped, and the report says so.
    And [stop] does return: no run takes more than [3 K + 5] steps, and
    until [stop] has returned some step can always be taken. *)
Theorem drain_guarantee fn fc fp fsz N d s0 (fs : list frame) :
  start (fresh (init fn fc fp fsz N) d) = (true, s0) →
  Z.of_nat (length fs) ≤ N →
  (∀ tr s, run tr s0 = Some s →
     calls tr = (CallWrite <$> fs) ++ [CallStop] → caller s = Ready →
     written s = fs ∧ dropped_frames (obj s) = 0 ∧
     last_report s = Some (fn, size_mb (disk s) fn, 0)) ∧
  (∀ tr s, run tr s0 = Some s →
     calls tr `prefix_of` (CallWrite <$> fs) ++ [CallStop] →
     (length tr ≤ 3 * length fs + 5)%nat ∧
     ((calls tr = (CallWrite <$> fs) ++ [CallStop] ∧ caller s = Ready) ∨
      ∃ l s', step l s = Some s' ∧
        calls (tr ++ [l]) `prefix_of` (CallWrite <$> fs) ++ [CallStop])).
Proof.
  intros Hst HK.
  pose proof (start_fresh_Inv _ _ _ _ _ _ _ _ Hst) as HI0.
  destruct (start_true _ _ Hst) as (Hrec & Hd0 & Hc0 & Hp0 & Hq & Hfn & Hw0 & _).
  simpl in Hq, Hw0, Hfn, Hp0.
  split.
  - intros tr s Hr Hcalls Hready.
    assert (Inv s) as HI by eauto using Inv_run.
    assert (collect rejected tr s0 = [] ∧
            collect offered tr s0 = written_calls tr) as [Hrej Hoff].
    { eapply (drain_no_reject tr s0 s fs); try done.
      - rewrite Hq. simpl. lia.
      - by rewrite Hcalls. }
    rewrite <- written_calls_calls, Hcalls, written_calls_writes in Hoff.
    simpl in Hoff. rewrite app_nil_r in Hoff.
    assert (stopped s) as Hstop.
    { eapply (stop_in_trace tr s0); try done; [|by rewrite Hc0].
      assert (CallStop ∈ calls tr) as Hin
        by (rewrite Hcalls; apply elem_of_app; right;
            by apply list_elem_of_singleton).
      unfold calls in Hin. apply list_elem_of_In in Hin.
      apply List.filter_In in Hin as [Hin _]. by apply list_elem_of_In. }
    destruct (stopped_ready_closed _ HI Hstop Hready)
      as (Hce & _ & _ & _ & _ & Hqe).
    pose proof (conserve_run _ _ _ HI0 Hr) as Hcons.
    pose proof (dropped_run _ _ _ HI0 Hr) as Hdrop.
    unfold pending in Hcons. rewrite Hce, Hqe, Hq, Hw0, Hc0 in Hcons.
    simpl in Hcons. rewrite app_nil_r in Hcons.
    rewrite Hrej in Hdrop. simpl in Hdrop.
    split_and?.
    + by rewrite Hcons, (accepted_all _ _ Hrej).
    + lia.
    + rewrite (closed_report_run tr s0 s HI0
                 ltac:(intros (_ & _ & Hc & _); congruence) Hr
                 (stopped_ready_closed _ HI Hstop Hready)).
      unfold report. destruct (run_config _ _ _ Hr) as [_ ->].
      rewrite Hfn. do 2 f_equal. lia.
  - intros tr s Hr Hpre.
    assert (Inv s) as HI by eauto using Inv_run.
    split.
    + pose proof (run_length _ _ _ Hr) as Hlen.
      pose proof (budget_prefix _ _ Hpre).
      assert (potential s0 = 0%nat) as Hpot
        by (unfold potential; rewrite Hq, Hc0, Hp0; done).
      lia.
    + assert (caller s = Ready ∨ caller s ≠ Ready) as [Hready|Hbusy]
        by (destruct (caller s); (by left) || (by right)).
      * destruct Hpre as [[|l k] Hk].
        { left. by rewrite app_nil_r in Hk. }
        right. exists l.
        assert (is_call l = true ∧ l ≠ CallStart) as [Hcall Hns].
        { assert (l ∈ (CallWrite <$> fs) ++ [CallStop]) as Hin
            by (rewrite Hk; apply elem_of_app; right;
                apply elem_of_cons; by left).
          apply elem_of_app in Hin as [Hin|Hin].
          - apply list_elem_of_fmap in Hin as (f & -> & _). done.
          - apply list_elem_of_singleton in Hin as ->. done. }
        assert (∃ s', step l s = Some s') as [s' Hs'].
        { destruct l; try done; simpl; rewrite ?Hready; eauto. }
        exists s'. split; [done|].
        rewrite calls_app. unfold calls at 2. simpl. rewrite Hcall.
        exists k. by rewrite Hk, <- app_assoc.
      * destruct (progress s HI Hbusy) as (l & s' & Hl & Hs').
        right. exists l, s'. split; [done|].
        rewrite calls_app. unfold calls at 2. simpl. rewrite Hl.
        by rewrite app_nil_r.
Qed.
(** ** More on the recorder *)

Lemma fresh_run_Inv fn fc fp fs n d tr s :
  run tr (fresh (init fn fc fp fs n) d) = Some s → Inv s.
Proof. apply Inv_run, Inv_fresh. Qed.

(** Every frame offered to the queue is written, on its way, or counted as
    dropped, at every moment. *)
Theorem frames_accounted fn fc fp fs n d tr s :
  run tr (fresh (init fn fc fp fs n) d) = Some s →
  Z.of_nat (length (written s)) + Z.of_nat (length (pending s))
    + dropped_frames (obj s)
  = Z.of_nat (length (collect offered tr (fresh (init fn fc fp fs n) d))).
Proof.
  intros Hr.
  pose proof (conserve_run _ _ _ (Inv_fresh fn fc fp fs n d) Hr) as Hc.
  pose proof (dropped_run _ _ _ (Inv_fresh fn fc fp fs n d) Hr) as Hd.
  pose proof (offered_split tr (fresh (init fn fc fp fs n) d)) as Hs.
  simpl in Hc, Hd. apply (f_equal length) in Hc. rewrite length_app in Hc.
  lia.
Qed.

Lemma budget_calls tr : (budget tr ≤ 5 * length (calls tr))%nat.
Proof.
  unfold budget. induction (calls tr) as [|l k IH]; simpl; [done|].
  destruct l; simpl; lia.
Qed.

(** [stop] always returns: a run has at most five steps for each call made,
    so the steps between two calls are finitely many, and while the caller
    is inside [stop] one of the two threads can always take a step. *)
Theorem stop_always_returns fn fc fp fs n d tr s :
  run tr (fresh (init fn fc fp fs n) d) = Some s →
  (length tr ≤ 5 * length (calls tr))%nat ∧
  (caller s ≠ Ready →
   ∃ l s', (l = StopPut ∨ l = StopJoin ∨ l = Get ∨ l = Process) ∧
     step l s = Some s').
Proof.
  intros Hr. split.
  - pose proof (run_length _ _ _ Hr) as Hl.
    pose proof (budget_calls tr). unfold potential in Hl at 2.
    simpl in Hl. lia.
  - intros Hc.
    destruct (progress s (fresh_run_Inv _ _ _ _ _ _ _ _ Hr) Hc)
      as (l & s' & Hl & Hs).
    exists l, s'. split; [|done]. destruct l; try done; eauto.
Qed.

Lemma release_step l s s' :
  Inv s → releases s = release_count s → step l s = Some s' →
  releases s' = release_count s'.
Proof.
  intros HI Hrel Hs. unfold release_count in *. phases s HI.
  all: destruct l; step_cases Hs; try done.
  all: try by match goal with H : is_Some None |- _ => destruct H end.
Qed.

Lemma release_run tr s s' :
  Inv s → releases s = release_count s → run tr s = Some s' →
  releases s' = release_count s'.
Proof.
  revert s. induction tr as [|l tr IH]; intros s HI Hrel Hr; simpl in Hr.
  - by simplify_eq.
  - destruct (step l s) as [s1|] eqn:Hs; [|done].
    eauto using Inv_step, release_step.
Qed.

(** A closed writer stays as it is, but for what is printed. *)
Lemma closed_step l s s' :
  closed s → step l s = Some s' →
  closed s' ∧ obj s' = obj s ∧ written s' = written s ∧
  releases s' = releases s ∧ disk s' = disk s.
Proof.
  intros (Hc & Hp & Hr & Ht & Hw & Hq) Hs. unfold closed.
  open_state s. simplify_eq. destruct l; by step_cases Hs.
Qed.

Lemma closed_run tr s s' :
  closed s → run tr s = Some s' →
  closed s' ∧ obj s' = obj s ∧ written s' = written s ∧
  releases s' = releases s ∧ disk s' = disk s.
Proof.
  revert s. induction tr as [|l tr IH]; intros s Hc Hr; simpl in Hr.
  - by simplify_eq.
  - destruct (step l s) as [s1|] eqn:Hs; [|done].
    destruct (closed_step _ _ _ Hc Hs) as (Hc1 & <- & <- & <- & <-).
    by apply IH.
Qed.

(** The encoder is released at most once, exactly when [stop] returns on a
    started writer, hence after the consumer has exited; from then on
    nothing is written to it, it is not released again and the file system
    is left alone. *)
Theorem release_discipline fn fc fp fs n d tr s :
  run tr (fresh (init fn fc fp fs n) d) = Some s →
  (releases s ≤ 1)%nat ∧
  (releases s = 1%nat ↔ closed s) ∧
  (releases s = 1%nat → writer (obj s) = None ∧ consumer s = Exited) ∧
  (releases s = 1%nat → ∀ tr' s', run tr' s = Some s' →
     releases s' = 1%nat ∧ written s' = written s ∧ disk s' = disk s).
Proof.
  intros Hr.
  pose proof (fresh_run_Inv _ _ _ _ _ _ _ _ Hr) as HI.
  pose proof (release_run _ _ _ (Inv_fresh fn fc fp fs n d) eq_refl Hr) as Hrel.
  assert (releases s = 1%nat ↔ closed s) as Hiff.
  { clear Hr. unfold release_count in Hrel. phases s HI; unfold closed; simpl.
    all: split; [intros ?; simplify_eq | intros (? & ? & _); by simplify_eq].
    by split_and?. }
  split_and?; try done.
  - unfold release_count in Hrel. by destruct (consumer s), (caller s); lia.
  - intros (? & _ & _ & _ & ? & _)%Hiff. done.
  - intros Hc%Hiff tr' s' Hr'.
    destruct (closed_run _ _ _ Hc Hr') as (_ & _ & -> & -> & ->).
    split_and?; try done. by apply Hiff.
Qed.

(** The test [if self.writer] in the loop of the consumer never fails: a
    frame taken from the queue is always written. *)
Theorem consumer_never_skips fn fc fp fs n d tr s (f : frame) :
  run tr (fresh (init fn fc fp fs n) d) = Some s →
  consumer s = Holding (Some f) →
  is_Some (writer (obj s)) ∧
  ∃ s', step Process s = Some s' ∧ written s' = written s ++ [f] ∧
    consumer s' = Waiting ∧ queue (obj s') = queue (obj s).
Proof.
  intros Hr Hc.
  pose proof (fresh_run_Inv _ _ _ _ _ _ _ _ Hr) as HI. clear Hr.
  phases s HI; simplify_eq.
  all: match goal with H : is_Some ?w |- _ =>
         is_var w; destruct H as [vw ->] end.
  all: split; [by eexists|]; unfold consumer_process; simpl.
  all: destruct (VideoWriter_write f vw _); by eexists.
Qed.

(** Writes in a row on a full queue, with the consumer paused. *)
Lemma run_writes_full (fs : list frame) s :
  is_recording (obj s) = true → full (queue (obj s)) = true →
  ∃ s', run (CallWrite <$> fs) s = Some s' ∧
    queue (obj s') = queue (obj s) ∧
    dropped_frames (obj s') = dropped_frames (obj s) + Z.of_nat (length fs) ∧
    collect accepted (CallWrite <$> fs) s = [] ∧
    collect rejected (CallWrite <$> fs) s = fs.
Proof.
  revert s. induction fs as [|f fs IH]; intros s Hrec Hfull.
  - exists s. simpl. split_and?; try done. lia.
  - assert (write f (obj s)
            = set_dropped_frames (dropped_frames (obj s) + 1) (obj s)) as Hw.
    { unfold write, put_nowait. by rewrite Hrec, Hfull. }
    destruct (IH (set_obj (write f (obj s)) s))
      as (s' & Hrun & Hq & Hd & Ha & Hj).
    + by rewrite Hw.
    + by rewrite Hw.
    + exists s'. rewrite fmap_cons, run_write, !collect_write, Hrun, Ha, Hj.
      rewrite Hw in Hq, Hd. simpl in Hq, Hd.
      unfold accepted, rejected. rewrite Hrec, Hfull. simpl.
      split_and?; try done. rewrite Hd. lia.
Qed.

(** A burst of any length against a paused consumer: the first [N] frames
    fill the queue in order, every later one is rejected and counted. *)
Theorem paused_burst fn fc fp fsz N d s0 (fs : list frame) :
  1 ≤ N →
  start (fresh (init fn fc fp fsz N) d) = (true, s0) →
  ∃ s, run (CallWrite <$> fs) s0 = Some s ∧
    items (queue (obj s)) = Some <$> take (Z.to_nat N) fs ∧
    collect accepted (CallWrite <$> fs) s0 = take (Z.to_nat N) fs ∧
    collect rejected (CallWrite <$> fs) s0 = drop (Z.to_nat N) fs ∧
    dropped_frames (obj s) = Z.of_nat (length fs - Z.to_nat N).
Proof.
  intros HN Hst.
  destruct (start_true _ _ Hst) as (Hrec & Hd0 & _ & _ & Hq & _).
  simpl in Hq.
  pose proof (take_drop (Z.to_nat N) fs) as Hfs.
  pose proof (length_take fs (Z.to_nat N)) as Hla.
  pose proof (length_drop fs (Z.to_nat N)) as Hlb.
  set (a := take (Z.to_nat N) fs) in *. set (b := drop (Z.to_nat N) fs) in *.
  clearbody a b. subst fs.
  destruct (run_writes_room a s0)
    as (s1 & Hr1 & Hrec1 & Hm1 & Hi1 & Hd1 & Ha1 & Hj1); [done| |].
  { rewrite Hq. simpl. lia. }
  rewrite Hq in Hm1, Hi1. simpl in Hm1, Hi1.
  rewrite fmap_app, run_app, Hr1, !(collect_app _ _ _ _ _ Hr1), Ha1, Hj1.
  rewrite length_app in *.
  change (Some s1 ≫= run (CallWrite <$> b)) with (run (CallWrite <$> b) s1).
  destruct b as [|f b].
  - exists s1. simpl. rewrite app_nil_r. split_and?; try done.
    simpl in *. lia.
  - destruct (run_writes_full (f :: b) s1)
      as (s2 & Hr2 & Hq2 & Hd2 & Ha2 & Hj2); [done| |].
    { unfold full. rewrite Hm1, Hi1, length_fmap. simpl in *.
      destruct (Z.ltb_spec 0 N), (Z.leb_spec N (Z.of_nat (length a)));
        simpl; try done; lia. }
    exists s2. rewrite Hr2, Ha2, Hj2, Hq2, app_nil_r.
    split_and?; try done. rewrite Hd2, Hd1, Hd0. simpl in *. lia.
Qed.

Lemma unbounded_no_reject tr s :
  maxsize (queue (obj s)) ≤ 0 → collect rejected tr s = [].
Proof.
  revert s. induction tr as [|l tr IH]; intros s Hm; simpl; [done|].
  destruct (step l s) as [s1|] eqn:Hs; [|done].
  destruct (step_config _ _ _ Hs) as [Hm1 _].
  rewrite IH by lia. rewrite app_nil_r.
  destruct l; simpl; try done. unfold full.
  destruct (Z.ltb_spec 0 (maxsize (queue (obj s)))); [lia|].
  by rewrite andb_false_r.
Qed.

(** A [queue_size] of 0 or less makes the queue unbounded: no frame is ever
    rejected, the counter stays at 0, and every frame submitted while
    recording is written or on its way. *)
Theorem unbounded_never_drops fn fc fp fs n d tr s :
  n ≤ 0 →
  run tr (fresh (init fn fc fp fs n) d) = Some s →
  dropped_frames (obj s) = 0 ∧
  collect rejected tr (fresh (init fn fc fp fs n) d) = [] ∧
  written s ++ pending s = collect offered tr (fresh (init fn fc fp fs n) d).
Proof.
  intros Hn Hr.
  pose proof (unbounded_no_reject tr (fresh (init fn fc fp fs n) d) Hn) as Hj.
  pose proof (dropped_run _ _ _ (Inv_fresh fn fc fp fs n d) Hr) as Hd.
  pose proof (conserve_run _ _ _ (Inv_fresh fn fc fp fs n d) Hr) as Hc.
  rewrite Hj in Hd. rewrite (accepted_all _ _ Hj) in Hc.
  split_and?; done.
Qed.

(** [stop] drains what is queued when it is called: when it returns, the
    frames that were in the queue or in the hands of the consumer have been
    written after those already written, in order, and nothing else; the
    counter has not moved, the queue is empty, the thread is joined and the
    encoder released. *)
Theorem stop_drains_pending fn fc fp fs n d tr1 tr2 s1 s2 :
  run tr1 (fresh (init fn fc fp fs n) d) = Some s1 →
  is_recording (obj s1) = true →
  run (CallStop :: tr2) s1 = Some s2 →
  caller s2 = Ready →
  written s2 = written s1 ++ pending s1 ∧
  dropped_frames (obj s2) = dropped_frames (obj s1) ∧
  items (queue (obj s2)) = [] ∧
  thread (obj s2) = None ∧ writer (obj s2) = None ∧
  consumer s2 = Exited ∧ releases s2 = 1%nat.
Proof.
  intros H1 Hrec H2 Hready.
  pose proof (fresh_run_Inv _ _ _ _ _ _ _ _ H1) as HI1.
  pose proof (Inv_run _ _ _ HI1 H2) as HI2.
  assert (consumer s1 ≠ NotStarted) as Hns.
  { clear -HI1 Hrec. by phases s1 HI1. }
  assert (stopped s2) as Hst
    by (eapply (stop_in_trace (CallStop :: tr2) s1); try done;
        apply elem_of_cons; by left).
  pose proof (stopped_ready_closed _ HI2 Hst Hready) as Hcl.
  pose proof (conserve_run _ _ _ HI1 H2) as Hc.
  pose proof (dropped_run _ _ _ HI1 H2) as Hd.
  assert (collect offered (CallStop :: tr2) s1 = []) as Hoff.
  { rewrite run_cons in H2.
    change (collect offered (CallStop :: tr2) s1) with
      (match step CallStop s1 with
       | Some s' => [] ++ collect offered tr2 s' | None => [] end).
    destruct (step CallStop s1) as [s1'|] eqn:Hs1; [simpl in H2|done].
    assert (stopped s1') as Hst1.
    { split; [clear -Hs1; open_state s1; by step_cases Hs1|].
      by eapply started_step. }
    by destruct (stopped_run _ _ _ Hst1 H2) as [_ ->]. }
  destruct (offered_nil _ _ Hoff) as [Ha Hj]. rewrite Ha in Hc.
  rewrite Hj in Hd.
  assert (run (tr1 ++ CallStop :: tr2) (fresh (init fn fc fp fs n) d)
          = Some s2) as Hall by (by rewrite run_app, H1).
  pose proof (release_run _ _ _ (Inv_fresh fn fc fp fs n d) eq_refl Hall)
    as Hrel.
  destruct Hcl as (Hce & Hp & _ & Ht & Hw & Hq).
  unfold release_count in Hrel. rewrite Hce, Hp in Hrel.
  unfold pending in Hc at 1. rewrite Hce, Hq in Hc. simpl in Hc.
  rewrite !app_nil_r in Hc. simpl in Hd.
  split_and?; try done. lia.
Qed.

(** ** The loop of CameraApp *)

Implicit Types (m : machine frame) (r : system frame).

Lemma start_false_idle fn fc fp fs n d s :
  start (fresh (init fn fc fp fs n) d) = (false, s) → idle s.
Proof.
  unfold start, idle. simpl. intros Hs.
  destruct (VideoWriter _ _ _ _ _) as [[e|vw] d']; [by simplify_eq|].
  destruct (isOpened vw); simpl in Hs; by simplify_eq.
Qed.

Lemma report_count_print (ls : list line) r :
  report_count (print ls r)
  = (report_count r
     + length (List.filter (fun x => match x with Rec_video_saved _ => true
                                               | _ => false end) ls))%nat.
Proof. unfold report_count. simpl. by rewrite List.filter_app, length_app. Qed.

Lemma report_count_start r :
  report_count (snd (start r)) = report_count r.
Proof.
  unfold start, report_count.
  destruct (VideoWriter _ _ _ _ _) as [[e|vw] d']; simpl.
  - rewrite !List.filter_app, !length_app. simpl. lia.
  - destruct (isOpened vw); simpl;
      rewrite !List.filter_app, !length_app; simpl; lia.
Qed.

(** How the steps move the number of reports: only the end of [stop]
    prints one. *)
Lemma report_count_step l r r' :
  step l r = Some r' →
  report_count r' =
    (report_count r +
     match l with
     | StopJoin => 1
     | CallStop => match thread (obj r) with None => 1 | Some _ => 0 end
     | _ => 0
     end)%nat.
Proof.
  intros Hs. destruct l.
  - simpl in Hs. destruct (caller r), (consumer r); simplify_eq.
    rewrite report_count_start. lia.
  - simpl in Hs. simplify_eq. unfold report_count. simpl. lia.
  - open_state r. unfold report_count. step_cases Hs;
      rewrite ?List.filter_app, ?length_app; simpl; lia.
  - open_state r. unfold report_count. step_cases Hs; simpl; lia.
  - open_state r. unfold report_count. step_cases Hs;
      rewrite ?List.filter_app, ?length_app; simpl; lia.
  - open_state r. unfold report_count. step_cases Hs; simpl; lia.
  - open_state r. unfold report_count. step_cases Hs; simpl; lia.
Qed.

Lemma stop_enter_step r :
  caller r = Ready → step CallStop r = Some (stop_enter r).
Proof. intros Hc. simpl. by rewrite Hc. Qed.

(** A recorder that [toggle_recording] has just made. *)
Lemma new_recorder_facts fn fc fp fs n d b r :
  start (fresh (init fn fc fp fs n) d) = (b, r) →
  Inv r ∧ releases r = release_count r ∧ report_count r = 0%nat ∧
  (idle r ∨ is_recording (obj r) = true).
Proof.
  intros Hs. split_and?.
  - eauto using start_fresh_Inv.
  - apply (release_step CallStart (fresh (init fn fc fp fs n) d));
      [apply Inv_fresh | done | simpl; by rewrite Hs].
  - replace r with (snd (start (fresh (init fn fc fp fs n) d)))
      by (by rewrite Hs).
    by rewrite report_count_start.
  - destruct b.
    + right. by destruct (start_true _ _ Hs) as (? & _).
    + left. eauto using start_false_idle.
Qed.

Lemma rec_ok_loop p p' r :
  loop_pc p = true → loop_pc p' = true → rec_ok p r → rec_ok p' r.
Proof. unfold rec_ok. destruct p, p'; try done. Qed.

Lemma rec_ok_new fn fc fp fs n d b r :
  start (fresh (init fn fc fp fs n) d) = (b, r) → rec_ok AtRead r.
Proof. intros Hs. by apply new_recorder_facts in Hs. Qed.

Lemma idle_write (f : frame) r :
  idle r → set_obj (write f (obj r)) r = r.
Proof.
  intros (_ & _ & Hr & _). unfold write. rewrite Hr. simpl. by destruct r.
Qed.

Lemma rec_ok_write p (f : frame) r :
  loop_pc p = true → rec_ok p r → rec_ok p (set_obj (write f (obj r)) r).
Proof.
  intros Hp Hok.
  assert (rec_ok AtRead r) as (HI & Hrel & Hcnt & Hph)
    by (by apply (rec_ok_loop p)).
  apply (rec_ok_loop AtRead); [done..|].
  assert (step (CallWrite f) r = Some (set_obj (write f (obj r)) r)) as Hs
    by done.
  unfold rec_ok. split_and?.
  - apply (Inv_step _ _ _ HI Hs).
  - apply (release_step _ _ _ HI Hrel Hs).
  - by rewrite (report_count_step _ _ _ Hs), Hcnt.
  - destruct Hph as [Hid|Hrec].
    + left. by rewrite idle_write.
    + right. by apply (recording_step (CallWrite f) r).
Qed.

Lemma rec_ok_caller p r : loop_pc p = true → rec_ok p r → caller r = Ready.
Proof.
  intros Hp Hok.
  assert (rec_ok AtRead r) as (HI & _ & _ & [Hid|Hrec])
    by (by apply (rec_ok_loop p)).
  - by destruct Hid as (_ & ? & _).
  - clear -HI Hrec. by phases r HI.
Qed.

Lemma stop_enter_facts r :
  is_recording (obj (stop_enter r)) = false ∧
  caller (stop_enter r)
  = match thread (obj r) with Some _ => InStopPut | None => Ready end.
Proof.
  open_state r. unfold stop_enter, stop_finish; simpl.
  repeat case_match; simplify_eq; done.
Qed.

Lemma rec_ok_stop p r :
  loop_pc p = true → rec_ok p r →
  rec_ok InCleanup (stop_enter r) ∧
  (is_recording (obj r) = true → rec_ok InToggle (stop_enter r)).
Proof.
  intros Hp Hok.
  pose proof (rec_ok_caller _ _ Hp Hok) as Hc.
  assert (rec_ok AtRead r) as (HI & Hrel & Hcnt & Hph)
    by (by apply (rec_ok_loop p)).
  pose proof (stop_enter_step r Hc) as Hs.
  pose proof (Inv_step _ _ _ HI Hs) as HI'.
  pose proof (release_step _ _ _ HI Hrel Hs) as Hrel'.
  pose proof (report_count_step _ _ _ Hs) as Hcnt'. rewrite Hcnt in Hcnt'.
  destruct (stop_enter_facts r) as [Hoff Hcall].
  assert (report_count (stop_enter r)
          = match caller (stop_enter r) with Ready => 1 | _ => 0 end%nat)
    as Hcnt2.
  { rewrite Hcnt', Hcall. by destruct (thread (obj r)). }
  unfold rec_ok. split; [by split_and?|].
  intros Hrec. split_and?; try done. split; [done|].
  eapply started_step; [|done]. clear -HI Hrec. by phases r HI.
Qed.

Lemma rec_ok_step p l r r' :
  is_call l = false → rec_ok p r → step l r = Some r' → rec_ok p r'.
Proof.
  intros Hl (HI & Hrel & Hp) Hs.
  pose proof (Inv_step _ _ _ HI Hs) as HI'.
  pose proof (release_step _ _ _ HI Hrel Hs) as Hrel'.
  pose proof (report_count_step _ _ _ Hs) as Hcnt.
  unfold rec_ok. split_and?; try done.
  clear HI' Hrel'. unfold stopped, idle in *.
  destruct p; destruct_and?; phases r HI;
    destruct l; try done; step_cases Hs; destruct_or?; destruct_and?;
    simplify_eq; simpl in *; split_and?; eauto; try done; try lia.
Qed.

Lemma report_count_stop_enter r :
  report_count (stop_enter r) =
    (report_count r
     + match thread (obj r) with None => 1 | Some _ => 0 end)%nat.
Proof.
  open_state r. unfold report_count, stop_enter, stop_finish. simpl.
  repeat case_match; simpl; rewrite ?List.filter_app, ?length_app; simpl; lia.
Qed.

Lemma rec_ok_weak p r : p = InCleanup ∨ p = Done → rec_ok p r → rec_weak r.
Proof.
  intros Hp (HI & _ & Hph). unfold rec_weak.
  destruct Hp as [-> | ->].
  - destruct Hph as [Hr Hc]. split; [by apply Inv_StopInv|].
    destruct (caller r); lia.
  - destruct Hph as (Hr & Hc & Hn). split; [by apply Inv_StopInv|].
    rewrite Hc. lia.
Qed.

Lemma rec_weak_step l r r' :
  is_call l = false → rec_weak r → step l r = Some r' → rec_weak r'.
Proof.
  intros Hl [HI Hn] Hs. split; [by apply (StopInv_step l r)|].
  rewrite (report_count_step _ _ _ Hs). clear HI.
  open_state r. destruct l; try done; step_cases Hs; lia.
Qed.

(** [cleanup] meets the recorder that [toggle_recording] is stopping, or
    has just stopped. *)
Lemma rec_weak_again r : rec_ok InToggle r → rec_weak (stop_enter r).
Proof.
  intros (HI & _ & Hst & Hn). split; [by apply StopInv_again|].
  rewrite report_count_stop_enter, Hn.
  destruct (stop_enter_facts r) as [_ ->].
  destruct Hst as [Hr Hc]. clear Hn. phases r HI; try done.
  all: repeat match goal with H : is_Some ?w |- _ =>
         is_var w; destruct H as [? ->] end; simpl; lia.
Qed.

Lemma push_frame_AppInv (f : frame) m :
  loop_pc (pc m) = true → AppInv m →
  AppInv (set_pc (AtKey f) (push_frame f m)).
Proof.
  unfold AppInv, push_frame. intros Hp HA.
  destruct (async_recorder (camera m)) as [r|] eqn:Hr; simpl.
  - apply rec_ok_write; [done|]. by apply (rec_ok_loop (pc m)).
  - by rewrite Hr.
Qed.

Lemma toggle_start_recorder ts1 ts2 m :
  ∃ r, async_recorder (camera (toggle_start ts1 ts2 m)) = Some r ∧
       rec_ok AtRead r ∧ pc (toggle_start ts1 ts2 m) = pc m.
Proof.
  unfold toggle_start, new_recorder.
  destruct (start (fresh (init (generate_filename (camera m) ts1 "mp4") _ _ _ 128)
                         (world_disk m))) as [b1 r1] eqn:H1.
  simpl. destruct b1; simpl.
  - exists r1. eauto using rec_ok_new.
  - destruct (start (fresh (init (generate_filename (camera m) ts2 "avi") _ _ _ 128)
                           (disk r1))) as [b2 r2] eqn:H2.
    exists r2. simpl. eauto using rec_ok_new.
Qed.

(** A step of the recorder's threads under the loop. *)
Lemma rec_step_inv l m m' :
  app_step (Rec l) m = Some m' →
  is_call l = false ∧ pc m ≠ Done ∧
  ∃ r r', async_recorder (camera m) = Some r ∧ step l r = Some r' ∧
          m' = set_recorder (Some r') m.
Proof.
  unfold app_step. destruct (is_call l); [done|]. intros Hs.
  split; [done|].
  destruct (async_recorder (camera m)) as [r|]; [|by destruct (pc m)].
  destruct (step l r) as [r'|] eqn:Hr; [|by destruct (pc m)].
  split; [by destruct (pc m)|]. exists r, r'.
  split_and?; try done. destruct (pc m); by simplify_eq.
Qed.

Lemma rec_step_intro l m r r' :
  is_call l = false → pc m ≠ Done →
  async_recorder (camera m) = Some r → step l r = Some r' →
  app_step (Rec l) m = Some (set_recorder (Some r') m).
Proof.
  intros Hl Hp Hr Hs. unfold app_step. rewrite Hl, Hr, Hs.
  by destruct (pc m).
Qed.

Lemma AppInv_same m m' :
  AppInv m →
  async_recorder (camera m') = async_recorder (camera m) →
  loop_pc (pc m) = true → loop_pc (pc m') = true →
  AppInv m'.
Proof.
  unfold AppInv. intros HA -> Hp Hp'.
  destruct (async_recorder (camera m)) as [r|].
  - by apply (rec_ok_loop (pc m)).
  - by destruct (pc m').
Qed.

Lemma toggle_recording_AppInv ts1 ts2 m :
  loop_pc (pc m) = true → AppInv m → AppInv (toggle_recording ts1 ts2 m).
Proof.
  unfold AppInv, toggle_recording. intros Hp HA.
  destruct (toggle_start_recorder ts1 ts2 m) as (r' & Hr' & Hok & _).
  destruct (async_recorder (camera m)) as [r|].
  - destruct (is_recording (obj r)) eqn:Hrec; simpl.
    + by apply (rec_ok_stop (pc m) r).
    + by rewrite Hr'.
  - simpl. by rewrite Hr'.
Qed.

Lemma handle_key_AppInv cur k ts1 ts2 (f : frame) m :
  loop_pc (pc m) = true → AppInv m → AppInv (handle_key cur k ts1 ts2 f m).
Proof.
  intros Hp HA. unfold handle_key.
  assert (AppInv (set_app (set_current_fps cur (camera m)) m)) as HA1
    by (by apply (AppInv_same m)).
  destruct (Z.land k 255 =? 113); [by apply (AppInv_same m)|].
  destruct (Z.land k 255 =? 118); [by apply toggle_recording_AppInv|].
  destruct (Z.land k 255 =? 115); by apply (AppInv_same m).
Qed.

Lemma cleanup_enter_AppInv m :
  loop_pc (pc m) = true → AppInv m → AppInv (cleanup_enter m).
Proof.
  unfold AppInv, cleanup_enter. intros Hp HA. simpl.
  destruct (async_recorder (camera m)) as [r|] eqn:Hr; simpl.
  - by apply (rec_ok_stop (pc m) r).
  - by rewrite Hr.
Qed.

(** The steps of a run that no [KeyboardInterrupt] cuts short. *)
Lemma AppInv_step (al : app_label frame) m m' :
  is_interrupt al = false →
  AppInv m → app_step al m = Some m' → AppInv m'.
Proof.
  intros Hal HA Hs. destruct al; simpl in Hal; try done.
  - (* a frame is read, or the stream is lost *)
    simpl in Hs. destruct (pc m) eqn:Hpc; try done.
    destruct (is_running (camera m)); [|done].
    destruct r as [f|]; [destruct (hw_configured (camera m))|]; simplify_eq.
    + apply push_frame_AppInv; [by rewrite Hpc | done].
    + apply (AppInv_same m); try done. by rewrite Hpc.
    + apply (AppInv_same m); try done. by rewrite Hpc.
  - (* [v4l2-ctl] has returned *)
    simpl in Hs. destruct (pc m) eqn:Hpc; try done. simplify_eq.
    apply push_frame_AppInv; [simpl; by rewrite Hpc|].
    apply (AppInv_same m); try done; simpl; by rewrite Hpc.
  - (* the key *)
    simpl in Hs. destruct (pc m) eqn:Hpc; try done. simplify_eq.
    apply handle_key_AppInv; [by rewrite Hpc | done].
  - (* a step of the recorder *)
    apply rec_step_inv in Hs as (Hl & _ & r & r' & Hrec & Hr & ->).
    unfold AppInv in *. rewrite Hrec in HA. simpl.
    by apply (rec_ok_step (pc m) l r).
  - (* [stop] has returned in [toggle_recording] *)
    simpl in Hs. destruct (pc m) eqn:Hpc; try done.
    destruct (async_recorder (camera m)) as [r|]; [|done].
    destruct (recorder_ready m); [|done]. by simplify_eq.
  - (* [cleanup] is entered *)
    simpl in Hs. destruct (pc m) eqn:Hpc; try done.
    + destruct (is_running (camera m)); [done|]. simplify_eq.
      apply cleanup_enter_AppInv; [by rewrite Hpc | done].
    + simplify_eq. apply cleanup_enter_AppInv; [by rewrite Hpc | done].
  - (* [cleanup] ends *)
    simpl in Hs. destruct (pc m) eqn:Hpc; try done.
    destruct (recorder_ready m) eqn:Hrdy; [|done]. simplify_eq.
    unfold AppInv, recorder_ready in *.
    assert (async_recorder (camera (cleanup_finish cap_opened m))
              = async_recorder (camera m) ∧
            pc (cleanup_finish cap_opened m) = Done) as [-> ->]
      by (unfold cleanup_finish; by destruct cap_opened).
    destruct (async_recorder (camera m)) as [r|]; [|done].
    rewrite Hpc in HA. unfold rec_ok in *.
    destruct HA as (? & ? & ? & Hc).
    by destruct (caller r).
Qed.

Lemma AppInv_run (tr : list (app_label frame)) m m' :
  uninterrupted tr = true →
  AppInv m → app_run tr m = Some m' → AppInv m'.
Proof.
  unfold uninterrupted.
  revert m. induction tr as [|al tr IH]; intros m Hu HA Hr; simpl in *.
  - by simplify_eq.
  - destruct (app_step al m) as [m1|] eqn:Hs; [|done].
    destruct (is_interrupt al) eqn:Hal; [done|].
    eauto using AppInv_step.
Qed.

Lemma AppInv_init device tfps w h d (atr : list (app_label frame)) m :
  uninterrupted atr = true →
  app_run atr (app_init device tfps w h d) = Some m → AppInv m.
Proof. intros Hu. by apply AppInv_run. Qed.

(** Every run, with or without [KeyboardInterrupt]. *)
Lemma AppInv_weak m : AppInv m → AppInvW m.
Proof.
  unfold AppInv, AppInvW.
  destruct (async_recorder (camera m)) as [r|]; [|done].
  destruct (pc m); try done; apply rec_ok_weak; auto.
Qed.

Lemma AppInvW_strong m :
  pc m ≠ InCleanup → pc m ≠ Done → AppInvW m → AppInv m.
Proof.
  unfold AppInv, AppInvW.
  destruct (async_recorder (camera m)) as [r|]; [|done].
  by destruct (pc m).
Qed.

Lemma interrupted_AppInvW m :
  pc m ≠ InCleanup → pc m ≠ Done → AppInv m → AppInvW (interrupted m).
Proof.
  unfold AppInv, AppInvW, interrupted, cleanup_enter. intros H1 H2 HA. simpl.
  destruct (async_recorder (camera m)) as [r|] eqn:Hr; simpl; [|by rewrite Hr].
  destruct (loop_pc (pc m)) eqn:Hl.
  - apply (rec_ok_weak InCleanup); [by left|].
    by apply (rec_ok_stop (pc m) r).
  - apply rec_weak_again. by destruct (pc m).
Qed.

Lemma AppInvW_step (al : app_label frame) m m' :
  AppInvW m → app_step al m = Some m' → AppInvW m'.
Proof.
  intros HA Hs.
  assert (pc m = InCleanup ∨ pc m = Done ∨ pc m ≠ InCleanup ∧ pc m ≠ Done)
    as [Hpc|[Hpc|[Hp1 Hp2]]] by (destruct (pc m); auto).
  - (* in [cleanup] *)
    unfold AppInvW in *. rewrite Hpc in HA.
    destruct al; try (unfold app_step in Hs; rewrite ?Hpc in Hs; done).
    + apply rec_step_inv in Hs as (Hl & _ & r & r' & Hrec & Hr & ->).
      rewrite Hrec in HA. simpl. rewrite Hpc. by apply (rec_weak_step l r).
    + unfold app_step in Hs. rewrite Hpc in Hs.
      destruct (recorder_ready m); [|done]. simplify_eq.
      unfold cleanup_finish.
      destruct cap_opened; simpl; by destruct (async_recorder (camera m)).
    + unfold app_step in Hs. rewrite Hpc in Hs. simplify_eq. simpl.
      by destruct (async_recorder (camera m)).
  - (* [run] has ended *)
    destruct al; try (unfold app_step in Hs; rewrite ?Hpc in Hs; done).
    by apply rec_step_inv in Hs as (_ & ? & _).
  - (* in the [try] block *)
    pose proof (AppInvW_strong _ Hp1 Hp2 HA) as HS.
    destruct (is_interrupt al) eqn:Hal.
    + destruct al; try done. unfold app_step in Hs.
      destruct (pc m) eqn:Hpc; try done; simplify_eq;
        apply interrupted_AppInvW; rewrite ?Hpc; done.
    + apply AppInv_weak. by apply (AppInv_step al m).
Qed.

Lemma AppInvW_run (tr : list (app_label frame)) m m' :
  AppInvW m → app_run tr m = Some m' → AppInvW m'.
Proof.
  revert m. induction tr as [|al tr IH]; intros m HA Hr; simpl in Hr.
  - by simplify_eq.
  - destruct (app_step al m) as [m1|] eqn:Hs; [|done].
    eauto using AppInvW_step.
Qed.

Lemma AppInvW_init device tfps w h d (atr : list (app_label frame)) m :
  app_run atr (app_init device tfps w h d) = Some m → AppInvW m.
Proof. by apply AppInvW_run. Qed.

Lemma rec_ok_Inv p r : rec_ok p r → Inv r.
Proof. by intros (? & _). Qed.

(** The life of a recorder in the hands of [CameraApp].  In every run,
    with or without [KeyboardInterrupt], a recorder prints at most two
    reports, and while the main thread is in the loop the recorder it holds
    was never started (both codecs failed) or is recording, and has printed
    no report.  In a run without [KeyboardInterrupt], [stop] is never called
    on a recorder that was stopped before: no recorder prints its report
    twice, and when the program is done the recorder it still holds has
    printed its report once, no thread is left, the encoder is released and
    nothing is left in the queue. *)
Theorem recorder_lifecycle device tfps w h d (atr : list (app_label frame))
    m r :
  app_run atr (app_init device tfps w h d) = Some m →
  async_recorder (camera m) = Some r →
  (report_count r ≤ 2)%nat ∧
  (loop_pc (pc m) = true →
   report_count r = 0%nat ∧ releases r = 0%nat ∧ caller r = Ready ∧
   (idle r ∨ is_recording (obj r) = true ∧ live r)) ∧
  (uninterrupted atr = true →
   (report_count r ≤ 1)%nat ∧ (releases r ≤ 1)%nat ∧
   (pc m = Done →
    report_count r = 1%nat ∧ caller r = Ready ∧
    thread (obj r) = None ∧ writer (obj r) = None ∧ pending r = [] ∧
    (idle r ∨ closed r))).
Proof.
  intros Hr Hrec. pose proof (AppInvW_init _ _ _ _ _ _ _ Hr) as HW.
  split_and?.
  - unfold AppInvW in HW. rewrite Hrec in HW.
    assert (rec_weak r ∨ rec_ok (pc m) r ∧ pc m ≠ InCleanup ∧ pc m ≠ Done)
      as [[_ Hn]|[(_ & _ & Hp) [H1 H2]]]
      by (destruct (pc m); auto).
    + lia.
    + destruct (pc m); try done; destruct_and?; try lia;
        destruct (caller r); lia.
  - intros Hl.
    assert (AppInv m) as HA
      by (apply AppInvW_strong; [by destruct (pc m)..|done]).
    unfold AppInv in HA. rewrite Hrec in HA.
    destruct HA as (HI & Hrel & Hp). unfold release_count in Hrel.
    assert (report_count r = 0%nat ∧ (idle r ∨ is_recording (obj r) = true))
      as [Hc Hph] by (by destruct (pc m)).
    clear Hp HW. unfold idle, live, pending in *.
    phases r HI; destruct_or?; destruct_and?; simplify_eq;
      split_and?; eauto.
    left. by split_and?.
  - intros Hu. pose proof (AppInv_init _ _ _ _ _ _ _ Hu Hr) as HA.
    unfold AppInv in HA. rewrite Hrec in HA. clear Hr Hrec HW.
    destruct HA as (HI & Hrel & Hp). unfold release_count in Hrel.
    split_and?.
    + destruct (pc m); destruct_and?; try lia; destruct (caller r); lia.
    + destruct (consumer r), (caller r); lia.
    + intros Hd. rewrite Hd in Hp. destruct Hp as (Hoff & Hc & Hcnt).
      unfold idle, closed, pending in *.
      phases r HI; simplify_eq; split_and?; eauto 10.
Qed.

(** *** The latch *)

Lemma app_run_app (atr1 atr2 : list (app_label frame)) m :
  app_run (atr1 ++ atr2) m = app_run atr1 m ≫= app_run atr2.
Proof.
  revert m. induction atr1 as [|al atr1 IH]; intros m; simpl; [done|].
  destruct (app_step al m); simpl; [apply IH | done].
Qed.

Lemma toggle_recording_latch ts1 ts2 m :
  latch_view (toggle_recording ts1 ts2 m) = latch_view m.
Proof.
  unfold toggle_recording, toggle_start, latch_view.
  repeat case_match; done.
Qed.

Lemma handle_key_latch cur k ts1 ts2 (f : frame) m :
  latch_view (handle_key cur k ts1 ts2 f m) = latch_view m.
Proof.
  unfold handle_key. repeat case_match; try done.
  by rewrite toggle_recording_latch.
Qed.

Lemma push_frame_latch (f : frame) m :
  latch_view (push_frame f m) = latch_view m ∧ pc (push_frame f m) = pc m.
Proof. unfold push_frame, latch_view. by destruct (async_recorder (camera m)). Qed.

Lemma cleanup_enter_latch m :
  latch_view (cleanup_enter m) = latch_view m ∧ pc (cleanup_enter m) = InCleanup.
Proof.
  unfold cleanup_enter, latch_view. simpl.
  by destruct (async_recorder (camera m)).
Qed.

Lemma handle_key_pc cur k ts1 ts2 (f : frame) m :
  pc (handle_key cur k ts1 ts2 f m) = AtRead ∨
  pc (handle_key cur k ts1 ts2 f m) = InToggle.
Proof. unfold handle_key, toggle_recording. repeat case_match; auto. Qed.

(** A step that leaves the latch alone. *)
Lemma latch_ok_keep device tfps (atr : list (app_label frame)) al m m' :
  latch_ok device tfps atr m →
  latch_view m' = latch_view m →
  is_frame_read al = false →
  (is_interrupt al = false → in_controls (pc m') = in_controls (pc m)) →
  (is_interrupt al = true ∨ pc m = InCleanup ∨ pc m = Done →
   pc m' = InCleanup ∨ pc m' = Done) →
  latch_ok device tfps (atr ++ [al]) m'.
Proof.
  intros (Hd & Hf & Hsh & Hhw & Hic & Hint & Hex) Hv Hfr Hin Hcl.
  unfold latch_view in Hv. injection Hv as Hd' Hf' Hhw' Hsh'.
  unfold latch_ok, uninterrupted in *.
  rewrite !existsb_app. simpl. rewrite Hfr, !orb_false_r.
  rewrite Hd', Hf', Hhw', Hsh'. split_and?; try done.
  - intros Hc. apply Hic. rewrite <- Hin; [done|].
    destruct (is_interrupt al); [|done].
    destruct Hcl as [Hp|Hp]; [by left|..]; by rewrite Hp in Hc.
  - intros Hu. destruct (is_interrupt al) eqn:Hal; [by apply Hcl; left|].
    rewrite orb_false_r in Hu. by apply Hcl; right; apply Hint.
  - intros Hu Hc. destruct (is_interrupt al) eqn:Hal.
    + by rewrite orb_true_r in Hu.
    + rewrite orb_false_r in Hu. apply Hex; [done|]. by rewrite <- Hin.
Qed.

Lemma latch_step device tfps (atr : list (app_label frame)) al m m' :
  latch_ok device tfps atr m → app_step al m = Some m' →
  latch_ok device tfps (atr ++ [al]) m'.
Proof.
  intros HL Hs. destruct al; unfold app_step in Hs.
  - (* a frame is read, or the stream is lost *)
    destruct (pc m) eqn:Hpc; try done.
    destruct (is_running (camera m)); [|done].
    destruct r as [f|]; [|injection Hs as <-; apply (latch_ok_keep _ _ _ _ m);
                           simpl; rewrite ?Hpc; simpl; solve [intuition (auto; congruence)]].
    destruct HL as (Hd & Hf & Hsh & Hhw & Hic & Hint & Hex).
    assert (uninterrupted atr = true) as Hu.
    { destruct (uninterrupted atr); [done|].
      destruct Hint as [H|H]; [done|..]; by rewrite Hpc in H. }
    assert (hw_configured (camera m) = existsb is_frame_read atr) as Hh
      by (apply Hex; [done | by rewrite Hpc]).
    unfold latch_ok, uninterrupted in *.
    rewrite !existsb_app. simpl. rewrite !orb_false_r, orb_true_r.
    destruct (hw_configured (camera m)) eqn:Hhc; injection Hs as <-.
    + destruct (push_frame_latch f m) as [Hv Hp].
      unfold latch_view in Hv. injection Hv as Hd' Hf' Hhw' Hsh'.
      simpl. rewrite Hd', Hf', Hhw', Hsh', Hhc, Hsh, <- Hh.
      split_and?; try done. intros H. by rewrite H in Hu.
    + simpl. rewrite Hhc, Hsh, <- Hh, Hd, Hf.
      split_and?; try done. intros H. by rewrite H in Hu.
  - (* [v4l2-ctl] has returned *)
    destruct (pc m) eqn:Hpc; try done. injection Hs as <-.
    destruct HL as (Hd & Hf & Hsh & Hhw & Hic & Hint & Hex).
    destruct Hic as [Hhc Hfr]; [by rewrite Hpc|].
    unfold latch_ok, uninterrupted in *.
    rewrite !existsb_app. simpl. rewrite !orb_false_r.
    destruct (push_frame_latch f (one_shot_done v4l2_ok m)) as [Hv Hp].
    unfold latch_view in Hv. injection Hv as Hd' Hf' Hhw' Hsh'.
    simpl. rewrite Hd', Hf', Hhw', Hsh'. simpl. rewrite Hfr.
    split_and?; try done.
    + by rewrite Hsh, Hfr.
    + intros Hu. destruct (Hint Hu) as [H|H]; by rewrite Hpc in H.
  - (* the key *)
    destruct (pc m) eqn:Hpc; try done. injection Hs as <-.
    apply (latch_ok_keep _ _ _ _ m); try done.
    + apply handle_key_latch.
    + intros _. rewrite Hpc. by destruct (handle_key_pc cur k ts1 ts2 f m) as [-> | ->].
    + rewrite Hpc. simpl; solve [intuition (auto; congruence)].
  - (* a step of the recorder *)
    fold (app_step (Rec l) m) in Hs.
    apply rec_step_inv in Hs as (_ & _ & r & r' & _ & _ & ->).
    apply (latch_ok_keep _ _ _ _ m); try done.
    simpl; solve [intuition (auto; congruence)].
  - (* [stop] has returned in [toggle_recording] *)
    destruct (pc m) eqn:Hpc; try done.
    destruct (async_recorder (camera m)); [|done].
    destruct (recorder_ready m); [|done]. injection Hs as <-.
    apply (latch_ok_keep _ _ _ _ m); try done; simpl; rewrite ?Hpc;
      simpl; solve [intuition (auto; congruence)].
  - (* [cleanup] is entered *)
    destruct (cleanup_enter_latch m) as [Hv Hp].
    destruct (pc m) eqn:Hpc; try done;
      [destruct (is_running (camera m)); [done|]|]; injection Hs as <-;
      apply (latch_ok_keep _ _ _ _ m); try done; rewrite ?Hp, ?Hpc;
      simpl; solve [intuition (auto; congruence)].
  - (* [cleanup] ends *)
    destruct (pc m) eqn:Hpc; try done.
    destruct (recorder_ready m); [|done]. injection Hs as <-.
    apply (latch_ok_keep _ _ _ _ m); try done; rewrite ?Hpc;
      unfold cleanup_finish, latch_view; destruct cap_opened; simpl;
      simpl; solve [intuition (auto; congruence)].
  - (* [KeyboardInterrupt] *)
    destruct (cleanup_enter_latch (say [System_interrupted] m)) as [Hv Hp].
    destruct (pc m) eqn:Hpc; try done; injection Hs as <-;
      apply (latch_ok_keep _ _ _ _ m); try done; unfold interrupted;
      rewrite ?Hp; simpl; simpl; solve [intuition (auto; congruence)].
Qed.

Lemma latch_run device tfps w h d (atr : list (app_label frame)) m :
  app_run atr (app_init device tfps w h d) = Some m →
  latch_ok device tfps atr m.
Proof.
  revert m. induction atr as [|al atr IH] using rev_ind; intros m Hr.
  - simpl in Hr. injection Hr as <-. unfold latch_ok. simpl.
    by split_and?.
  - rewrite app_run_app in Hr.
    destruct (app_run atr (app_init device tfps w h d)) as [m0|]; [|done].
    simpl in Hr. destruct (app_step al m0) as [m1|] eqn:Hs; [|done].
    injection Hr as <-. by apply (latch_step _ _ _ _ m0); [apply IH|].
Qed.

(** The controls of the camera are forced at most once.  In every run,
    with or without [KeyboardInterrupt], [v4l2-ctl] has been called once or
    not at all, not at all before the first frame, and once when the latch
    is set.  In a run without [KeyboardInterrupt] the latch is set exactly
    when a frame has been read, as soon as the main thread is back from
    [v4l2-ctl]. *)
Theorem latch_once device tfps w h d (atr : list (app_label frame)) m :
  app_run atr (app_init device tfps w h d) = Some m →
  (shell m = [] ∨ shell m = [V4l2_ctl device "frame_rate" tfps]) ∧
  (existsb is_frame_read atr = false →
   shell m = [] ∧ hw_configured (camera m) = false) ∧
  (hw_configured (camera m) = true →
   shell m = [V4l2_ctl device "frame_rate" tfps] ∧
   existsb is_frame_read atr = true) ∧
  (uninterrupted atr = true → in_controls (pc m) = false →
   hw_configured (camera m) = existsb is_frame_read atr ∧
   shell m = (if existsb is_frame_read atr
              then [V4l2_ctl device "frame_rate" tfps] else [])).
Proof.
  intros Hr.
  destruct (latch_run _ _ _ _ _ _ _ Hr) as (_ & _ & Hsh & Hhw & _ & _ & Hex).
  split; [|split; [|split]].
  - rewrite Hsh. destruct (existsb is_frame_read atr); auto.
  - intros Hfr. rewrite Hfr in *. split; [done|].
    destruct (hw_configured (camera m)); [|done]. by specialize (Hhw eq_refl).
  - intros Hc. by rewrite Hsh, (Hhw Hc).
  - intros Hu Hc. split; [by apply Hex | done].
Qed.

(** *** [stop] under the loop *)

Lemma potential_new fn fc fp fs n d :
  potential (snd (start (fresh (init fn fc fp fs n) d))) = 0%nat.
Proof.
  unfold start, potential. simpl.
  destruct (VideoWriter _ _ _ _ _) as [[e|vw] d']; [done|].
  by destruct (isOpened vw).
Qed.

Lemma potential_write (f : frame) r :
  (potential (set_obj (write f (obj r)) r) ≤ potential r + 4)%nat.
Proof.
  pose proof (potential_step (CallWrite f) r _ eq_refl) as H. simpl in H. lia.
Qed.

Lemma potential_stop_enter r :
  (potential (stop_enter r) ≤ potential r + 4)%nat.
Proof.
  open_state r. unfold potential, stop_enter, stop_finish. simpl.
  destruct thread0; simpl; [destruct consumer0, caller0; simpl; lia|].
  destruct writer0 as [vw|]; simpl;
    [destruct (VideoWriter_release vw disk0)|]; simpl;
    destruct consumer0, caller0; simpl; lia.
Qed.

Lemma toggle_start_potential ts1 ts2 m :
  app_potential (toggle_start ts1 ts2 m) = 0%nat.
Proof.
  unfold toggle_start, new_recorder, app_potential.
  destruct (fst (start _)); simpl; apply potential_new.
Qed.

Lemma toggle_recording_potential ts1 ts2 m :
  (app_potential (toggle_recording ts1 ts2 m) ≤ app_potential m + 4)%nat.
Proof.
  pose proof (toggle_start_potential ts1 ts2 m) as H0.
  unfold toggle_recording. unfold app_potential at 2.
  destruct (async_recorder (camera m)) as [r|];
    [destruct (is_recording (obj r))|].
  - unfold app_potential. simpl. apply potential_stop_enter.
  - unfold app_potential in *. simpl. lia.
  - unfold app_potential in *. simpl. lia.
Qed.

Lemma cleanup_enter_potential m :
  (app_potential (cleanup_enter m) ≤ app_potential m + 4)%nat.
Proof.
  unfold app_potential, cleanup_enter. simpl.
  destruct (async_recorder (camera m)) as [r|] eqn:Hr; simpl.
  - apply potential_stop_enter.
  - rewrite Hr. lia.
Qed.

Lemma push_frame_potential (f : frame) m :
  (app_potential (push_frame f m) ≤ app_potential m + 4)%nat.
Proof.
  unfold app_potential, push_frame.
  destruct (async_recorder (camera m)) as [r|] eqn:Hr; simpl.
  - pose proof (potential_write f r). lia.
  - rewrite Hr. lia.
Qed.

Lemma app_potential_step (al : app_label frame) m m' :
  app_step al m = Some m' →
  (app_potential m' + (if is_rec al then 1 else 0)
   ≤ app_potential m + (if is_rec al then 0 else 4))%nat.
Proof.
  intros Hs. destruct al; unfold app_step in Hs; simpl.
  - destruct (pc m) eqn:Hpc; try done.
    destruct (is_running (camera m)); [|done].
    destruct r as [f|]; [destruct (hw_configured (camera m))|];
      injection Hs as <-; [|unfold app_potential; simpl; lia..].
    pose proof (push_frame_potential f m) as H.
    unfold app_potential in *. simpl in *. lia.
  - destruct (pc m) eqn:Hpc; try done. injection Hs as <-.
    pose proof (push_frame_potential f (one_shot_done v4l2_ok m)) as H.
    unfold app_potential in *. simpl in *. lia.
  - destruct (pc m) eqn:Hpc; try done. injection Hs as <-.
    unfold handle_key.
    pose proof (toggle_recording_potential ts1 ts2
                  (set_app (set_current_fps cur (camera m)) m)) as Ht.
    repeat case_match; try done; unfold app_potential in *; simpl in *; lia.
  - fold (app_step (Rec l) m) in Hs.
    apply rec_step_inv in Hs as (Hl & _ & r & r' & Hrec & Hr & ->).
    unfold app_potential. rewrite Hrec. simpl.
    pose proof (potential_step _ _ _ Hr) as H. rewrite Hl in H. lia.
  - destruct (pc m); try done.
    destruct (async_recorder (camera m)); [|done].
    destruct (recorder_ready m); [|done]. injection Hs as <-.
    unfold app_potential. simpl. lia.
  - pose proof (cleanup_enter_potential m) as Hc.
    destruct (pc m); try done;
      [destruct (is_running (camera m)); [done|]|]; injection Hs as <-; lia.
  - destruct (pc m); try done.
    destruct (recorder_ready m); [|done]. injection Hs as <-.
    unfold app_potential, cleanup_finish. destruct cap_opened; simpl; lia.
  - pose proof (cleanup_enter_potential (say [System_interrupted] m)) as Hc.
    destruct (pc m); try done; injection Hs as <-; unfold interrupted;
      unfold app_potential in *; simpl in *; lia.
Qed.

Lemma app_potential_run (atr : list (app_label frame)) m m' :
  app_run atr m = Some m' →
  (rec_steps atr + app_potential m'
   ≤ app_potential m + 4 * main_steps atr)%nat.
Proof.
  revert m. induction atr as [|al atr IH]; intros m Hr; simpl in Hr.
  - simplify_eq. unfold rec_steps, main_steps. simpl. lia.
  - destruct (app_step al m) as [m1|] eqn:Hs; [|done].
    pose proof (app_potential_step _ _ _ Hs) as H1.
    pose proof (IH _ Hr) as H2.
    unfold rec_steps, main_steps in *. simpl.
    destruct (is_rec al); simpl; lia.
Qed.

(** [stop] returns under the loop too.  The threads of the recorder take at
    most four steps for every step of the main thread, and while the main
    thread waits in [stop], for [toggle_recording] or for [cleanup], either
    [stop] can return or the recorder can take a step. *)
Theorem app_stop_returns device tfps w h d (atr : list (app_label frame)) m :
  app_run atr (app_init device tfps w h d) = Some m →
  (rec_steps atr + app_potential m ≤ 4 * main_steps atr)%nat ∧
  (pc m = InToggle →
   (∃ l m', app_step (Rec l) m = Some m') ∨
   (∃ m', app_step ToggleReturn m = Some m')) ∧
  (pc m = InCleanup →
   (∃ l m', app_step (Rec l) m = Some m') ∨
   (∀ cap_opened, ∃ m', app_step (CleanupReturn cap_opened) m = Some m')).
Proof.
  intros Hr. pose proof (AppInvW_init _ _ _ _ _ _ _ Hr) as HA.
  assert (∀ r l r', async_recorder (camera m) = Some r → pc m ≠ Done →
            is_call l = false → step l r = Some r' →
            ∃ l m', app_step (Rec l) m = Some m') as Hgo.
  { intros r l r' Hrec Hp Hl Hs.
    exists l. eexists. by apply (rec_step_intro l m r r'). }
  split_and?.
  - pose proof (app_potential_run _ _ _ Hr) as H.
    unfold app_potential in H at 2. simpl in H. lia.
  - intros Hpc. unfold AppInvW in HA. rewrite Hpc in HA.
    destruct (async_recorder (camera m)) as [r|] eqn:Hrec; [|done].
    destruct (caller r) eqn:Hc.
    + right. unfold app_step, recorder_ready. rewrite Hpc, Hrec, Hc. eauto.
    + left. destruct (progress r) as (l & r' & Hl & Hs);
        [by eapply rec_ok_Inv | by rewrite Hc |].
      apply (Hgo r l r'); try done. by rewrite Hpc.
    + left. destruct (progress r) as (l & r' & Hl & Hs);
        [by eapply rec_ok_Inv | by rewrite Hc |].
      apply (Hgo r l r'); try done. by rewrite Hpc.
  - intros Hpc. unfold AppInvW in HA. rewrite Hpc in HA.
    destruct (async_recorder (camera m)) as [r|] eqn:Hrec.
    + destruct HA as [HI _]. destruct (caller r) eqn:Hc.
      * right. intros b. unfold app_step, recorder_ready.
        rewrite Hpc, Hrec, Hc. eauto.
      * left. destruct (StopInv_progress r) as (l & r' & Hl & Hs);
          [done | by rewrite Hc |].
        apply (Hgo r l r'); try done. by rewrite Hpc.
      * left. destruct (StopInv_progress r) as (l & r' & Hl & Hs);
          [done | by rewrite Hc |].
        apply (Hgo r l r'); try done. by rewrite Hpc.
    + right. intros b. unfold app_step, recorder_ready.
      rewrite Hpc, Hrec. eauto.
Qed.

(** *** Starting a recording *)

Lemma start_result r :
  fst (start r) = negb (open_fails r) ∧
  disk (snd (start r)) = disk_after_open r ∧
  filename (obj (snd (start r))) = filename (obj r) ∧
  fourcc (obj (snd (start r))) = fourcc (obj r) ∧
  fps (obj (snd (start r))) = fps (obj r) ∧
  frame_size (obj (snd (start r))) = frame_size (obj r) ∧
  queue (obj (snd (start r))) = queue (obj r) ∧
  (open_fails r = false →
   is_recording (obj (snd (start r))) = true ∧
   dropped_frames (obj (snd (start r))) = 0 ∧
   consumer (snd (start r)) = Waiting ∧
   is_Some (thread (obj (snd (start r)))) ∧
   ∃ vw, writer (obj (snd (start r))) = Some vw ∧ isOpened vw = true).
Proof.
  unfold start, open_fails, disk_after_open.
  destruct (VideoWriter _ _ _ _ _) as [[e|vw] d']; simpl; [done|].
  destruct (isOpened vw) eqn:Ho; simpl; split_and?; try done.
  intros _. split_and?; eauto.
Qed.

Lemma start_failed_idle r :
  idle r → open_fails r = true →
  idle (snd (start r)) ∧ is_recording (obj (snd (start r))) = false.
Proof.
  intros (Hc & Hp & Hr & Ht & Hw & Hq) Hf.
  unfold start, open_fails, idle in *.
  destruct (VideoWriter _ _ _ _ _) as [[e|vw] d']; simpl in *;
    [by split_and?|].
  rewrite Hf. simpl. by split_and?.
Qed.

(** [toggle_recording] with no recording going on always leaves a recorder
    behind, never [None].  It tries [mp4v] on an [.mp4] path first and
    [MJPG] on an [.avi] path only when that fails, once, with the same rate
    and size; what it keeps is the first recorder that started, and an idle
    one on the [.avi] path when both failed. *)
Theorem toggle_start_contract ts1 ts2 m :
  recording (camera m) = false →
  pc (toggle_recording ts1 ts2 m) = AtRead ∧
  async_recorder (camera (toggle_recording ts1 ts2 m)) =
    Some (if open_fails (first_try ts1 m)
          then snd (start (second_try ts1 ts2 m))
          else snd (start (first_try ts1 m))) ∧
  console (toggle_recording ts1 ts2 m) =
    console m ++ [User_start_recording]
      ++ (if open_fails (first_try ts1 m) then [Warn_fallback] else []) ∧
  ∀ r, async_recorder (camera (toggle_recording ts1 ts2 m)) = Some r →
    is_recording (obj r) =
      negb (open_fails (first_try ts1 m)
            && open_fails (second_try ts1 ts2 m)) ∧
    (is_recording (obj r) = false → idle r) ∧
    fps (obj r) = get_smart_fps (camera m) ∧
    frame_size (obj r) = (actual_w (camera m), actual_h (camera m)) ∧
    queue (obj r) = Queue_new 128 ∧
    filename (obj r) =
      (if open_fails (first_try ts1 m)
       then generate_filename (camera m) ts2 "avi"
       else generate_filename (camera m) ts1 "mp4") ∧
    fourcc (obj r) =
      (if open_fails (first_try ts1 m) then 1196444237 else 1983148141).
Proof.
  intros Hrec.
  assert (toggle_recording ts1 ts2 m = set_pc AtRead (toggle_start ts1 ts2 m))
    as ->.
  { unfold toggle_recording, recording in *.
    destruct (async_recorder (camera m)) as [r|]; [|done]. by rewrite Hrec. }
  assert (toggle_start ts1 ts2 m =
          if open_fails (first_try ts1 m)
          then set_recorder (Some (snd (start (second_try ts1 ts2 m))))
                 (say [Warn_fallback] (say [User_start_recording] m))
          else set_recorder (Some (snd (start (first_try ts1 m))))
                 (say [User_start_recording] m)) as ->.
  { unfold toggle_start. fold (first_try ts1 m). fold (second_try ts1 ts2 m).
    destruct (start_result (first_try ts1 m)) as (-> & _).
    by destruct (open_fails (first_try ts1 m)). }
  destruct (start_result (first_try ts1 m))
    as (Hb1 & _ & Hfn1 & Hfc1 & Hfp1 & Hsz1 & Hq1 & Hok1).
  destruct (start_result (second_try ts1 ts2 m))
    as (Hb2 & _ & Hfn2 & Hfc2 & Hfp2 & Hsz2 & Hq2 & Hok2).
  pose proof start_failed_idle as Hfail.
  assert (idle (second_try ts1 ts2 m)) as Hid2 by (by unfold idle).
  destruct (open_fails (first_try ts1 m)) eqn:Hf1; simpl.
  - split_and?; try done.
    { by rewrite <- app_assoc. }
    intros r [= <-]. rewrite Hfn2, Hfc2, Hfp2, Hsz2, Hq2.
    destruct (open_fails (second_try ts1 ts2 m)) eqn:Hf2; simpl.
    + destruct (Hfail _ Hid2 Hf2) as [? ?]. by split_and?.
    + destruct (Hok2 eq_refl) as (? & _). split_and?; try done.
      intros ?. congruence.
  - split_and?; try done.
    intros r [= <-]. rewrite Hfn1, Hfc1, Hfp1, Hsz1, Hq1.
    destruct (Hok1 eq_refl) as (Hrec1 & _).
    split_and?; try done. intros ?. congruence.
Qed.

(** *** File names *)

Lemma append_cancel_l (p a b : string) : p +:+ a = p +:+ b → a = b.
Proof. induction p as [|c p IH]; simpl; [done|]. intros [= H]. auto. Qed.

Lemma append_split (s1 s2 a b : string) :
  String.length s1 = String.length s2 →
  s1 +:+ a = s2 +:+ b → s1 = s2 ∧ a = b.
Proof.
  revert s2. induction s1 as [|c s1 IH]; intros [|c2 s2] Hl; simpl in *;
    try done.
  intros [= -> H]. destruct (IH s2) as [-> ->]; auto.
Qed.

Lemma generate_filename_shape (a : CameraApp frame) :
  ∃ p, ∀ ts ext : string,
    generate_filename a ts ext = p +:+ "cam_" +:+ ts +:+ "." +:+ ext.
Proof.
  unfold generate_filename, path_join. simpl.
  destruct (String.eqb (output_dir a) "" || ends_with_sep (output_dir a)).
  - by exists (output_dir a).
  - exists (output_dir a +:+ "/"). intros ts' ext'.
    generalize ("cam_" +:+ ts' +:+ "." +:+ ext'). intros x.
    induction (output_dir a) as [|c p IH]; [done|].
    change (String c (p +:+ "/" +:+ x) = String c ((p +:+ "/") +:+ x)).
    by f_equal.
Qed.

(** Two file names made by [generate_filename] from time stamps of the same
    length are the same only if the time stamp and the extension are: the
    [.avi] of the fallback is never the path of the [.mp4] attempt, and two
    recordings share a path exactly when they start in the same second. *)
Theorem generate_filename_inj (a : CameraApp frame)
    (ts1 ts2 ext1 ext2 : string) :
  String.length ts1 = String.length ts2 →
  generate_filename a ts1 ext1 = generate_filename a ts2 ext2 ↔
  ts1 = ts2 ∧ ext1 = ext2.
Proof.
  intros Hl. split; [|by intros [-> ->]].
  destruct (generate_filename_shape a) as [p Hp].
  rewrite !Hp. intros H%append_cancel_l.
  change (String "c" (String "a" (String "m" (String "_"
            (ts1 +:+ String "." ext1))))
          = String "c" (String "a" (String "m" (String "_"
            (ts2 +:+ String "." ext2))))) in H.
  injection H as H. apply append_split in H as [-> H]; [|done].
  by injection H as ->.
Qed.

(** *** Leaving the loop *)

Lemma quitting_step (al : app_label frame) m m' :
  quitting m → app_step al m = Some m' →
  in_loop_body al = false ∧ quitting m'.
Proof.
  unfold quitting. intros [Hrun Hpc] Hs. destruct al; unfold app_step in Hs.
  - destruct (pc m); try done. by rewrite Hrun in Hs.
  - by destruct (pc m).
  - by destruct (pc m).
  - fold (app_step (Rec l) m) in Hs.
    by apply rec_step_inv in Hs as (_ & _ & r & r' & _ & _ & ->).
  - by destruct (pc m).
  - destruct (pc m); try done. rewrite Hrun in Hs. injection Hs as <-.
    unfold cleanup_enter. simpl.
    by destruct (async_recorder (camera m)).
  - destruct (pc m); try done. destruct (recorder_ready m); [|done].
    injection Hs as <-. unfold cleanup_finish. by destruct cap_opened.
  - destruct (pc m); try done; injection Hs as <-; [|done].
    unfold interrupted, cleanup_enter. simpl.
    by destruct (async_recorder (camera m)).
Qed.

Lemma quitting_run (atr : list (app_label frame)) m m' :
  quitting m → app_run atr m = Some m' →
  Forall (λ al, in_loop_body al = false) atr ∧ quitting m'.
Proof.
  revert m. induction atr as [|al atr IH]; intros m Hq Hr; simpl in Hr.
  - by simplify_eq.
  - destruct (app_step al m) as [m1|] eqn:Hs; [|done].
    destruct (quitting_step _ _ _ Hq Hs) as [Hl Hq1].
    destruct (IH _ Hq1 Hr) as [Hf ?]. split; [by constructor|done].
Qed.

(** The key [q], which is any key code whose low byte is 113, ends the
    loop: no frame is read and no key is handled after it; what follows is
    [cleanup] and the steps of the recorder. *)
Theorem quit_key_ends_loop device tfps w h d
    (atr1 atr2 : list (app_label frame)) cur k ts1 ts2 m :
  Z.land k 255 = 113 →
  app_run (atr1 ++ Key cur k ts1 ts2 :: atr2) (app_init device tfps w h d)
    = Some m →
  is_running (camera m) = false ∧
  Forall (λ al, in_loop_body al = false) atr2 ∧
  (pc m = AtRead ∨ pc m = InCleanup ∨ pc m = Done).
Proof.
  intros Hk Hr. rewrite app_run_app in Hr.
  destruct (app_run atr1 (app_init device tfps w h d)) as [m1|]; [|done].
  change (app_step (Key cur k ts1 ts2) m1 ≫= app_run atr2 = Some m) in Hr.
  unfold app_step in Hr. destruct (pc m1) eqn:Hpc; try done.
  unfold handle_key in Hr. rewrite Hk in Hr.
  change (113 =? 113) with true in Hr. cbv iota in Hr.
  assert (quitting
            (set_pc AtRead
               (set_app
                  (set_is_running false
                     (camera (set_app (set_current_fps cur (camera m1)) m1)))
                  (set_app (set_current_fps cur (camera m1)) m1)))) as Hq
    by (by split).
  destruct (quitting_run _ _ _ Hq Hr) as [Hf [Hrun Hp]].
  split_and?; try done. destruct (pc m); auto; done.
Qed.
End Proofs.











(** ** The theorems at work on the small encoder *)

Lemma drain_guarantee_witness :
  start (demo 2) = (true, snd (start (demo 2))) ∧
  Z.of_nat (length [10%nat; 20%nat]) ≤ 2 ∧
  run drain_trace (snd (start (demo 2)))
    = Some (final drain_trace (snd (start (demo 2)))) ∧
  calls drain_trace = (CallWrite <$> [10%nat; 20%nat]) ++ [CallStop] ∧
  caller (final drain_trace (snd (start (demo 2)))) = Ready ∧
  written (final drain_trace (snd (start (demo 2)))) = [10%nat; 20%nat] ∧
  dropped_frames (obj (final drain_trace (snd (start (demo 2))))) = 0 ∧
  (length drain_trace ≤ 3 * 2 + 5)%nat.
Proof.
  assert (start (demo 2) = (true, snd (start (demo 2)))) as H1
    by (vm_compute; reflexivity).
  assert (Z.of_nat (length [10%nat; 20%nat]) ≤ 2) as H2 by (simpl; lia).
  assert (run drain_trace (snd (start (demo 2)))
          = Some (final drain_trace (snd (start (demo 2))))) as H3
    by (vm_compute; reflexivity).
  assert (calls drain_trace = (CallWrite <$> [10%nat; 20%nat]) ++ [CallStop])
    as H4 by reflexivity.
  assert (caller (final drain_trace (snd (start (demo 2)))) = Ready) as H5
    by (vm_compute; reflexivity).
  destruct (drain_guarantee "captures/cam.mp4" 1 30 (1920, 1080) 2 no_files
              (snd (start (demo 2))) [10%nat; 20%nat] H1 H2) as [Hsafe Hlive].
  destruct (Hsafe _ _ H3 H4 H5) as (Hw & Hd & _).
  destruct (Hlive _ _ H3 ltac:(rewrite H4; reflexivity)) as [Hlen _].
  split_and?; assumption.
Defined.

Lemma fifo_order_witness :
  run (CallStart :: overflow_trace) (demo 1)
    = Some (final (CallStart :: overflow_trace) (demo 1)) ∧
  written (final (CallStart :: overflow_trace) (demo 1))
    `sublist_of` collect offered (CallStart :: overflow_trace) (demo 1) ∧
  collect offered (CallStart :: overflow_trace) (demo 1)
    `sublist_of` written_calls (CallStart :: overflow_trace).
Proof.
  assert (run (CallStart :: overflow_trace) (demo 1)
          = Some (final (CallStart :: overflow_trace) (demo 1))) as H1
    by (vm_compute; reflexivity).
  destruct (fifo_order "captures/cam.mp4" 1 30 (1920, 1080) 1 no_files _ _ H1)
    as (Ha & _ & _ & Hb).
  split_and?; assumption.
Defined.

Lemma boundedness_witness :
  1 ≤ 2 ∧
  start (demo 2) = (true, snd (start (demo 2))) ∧
  Z.of_nat (length [1%nat; 2%nat]) = 2 ∧
  ∃ s, run (CallWrite <$> ([1%nat; 2%nat] ++ [3%nat])) (snd (start (demo 2)))
         = Some s ∧
    items (queue (obj s)) = Some <$> [1%nat; 2%nat] ∧
    collect rejected (CallWrite <$> ([1%nat; 2%nat] ++ [3%nat]))
      (snd (start (demo 2))) = [3%nat] ∧
    dropped_frames (obj s) = 1.
Proof.
  assert (1 ≤ 2) as H1 by lia.
  assert (start (demo 2) = (true, snd (start (demo 2)))) as H2
    by (vm_compute; reflexivity).
  assert (Z.of_nat (length [1%nat; 2%nat]) = 2) as H3 by reflexivity.
  destruct (boundedness "captures/cam.mp4" 1 30 (1920, 1080) 2 no_files
              (snd (start (demo 2))) [1%nat; 2%nat] 3%nat H1 H2 H3)
    as (_ & s & Hr & Hi & _ & Hj & Hd).
  split_and?; try assumption. exists s. split_and?; assumption.
Defined.

(** With [queue_size = 0] the queue is unbounded: one frame submitted right
    after [start] is in the queue, more than [N = 0], and none is dropped. *)
Lemma boundedness_counterexample :
  ¬ (∀ tr s, run tr (demo 0) = Some s →
       Z.of_nat (length (items (queue (obj s)))) ≤ 0) ∧
  ¬ (∃ s, run (CallWrite <$> ([] ++ [7%nat])) (snd (start (demo 0))) = Some s ∧
       dropped_frames (obj s) = 1).
Proof.
  split.
  - intros H.
    specialize (H [CallStart; CallWrite 7%nat]
                  (final [CallStart; CallWrite 7%nat] (demo 0))
                  ltac:(vm_compute; reflexivity)).
    vm_compute in H. by apply H.
  - intros (s & Hr & Hd). vm_compute in Hr. injection Hr as <-.
    vm_compute in Hd. discriminate.
Qed.

Lemma dropped_counter_semantics_witness :
  start (demo 1) = (true, snd (start (demo 1))) ∧
  run (take 2 overflow_trace) (snd (start (demo 1)))
    = Some (final (take 2 overflow_trace) (snd (start (demo 1)))) ∧
  run (take 1 (drop 2 overflow_trace))
      (final (take 2 overflow_trace) (snd (start (demo 1))))
    = Some (final (take 3 overflow_trace) (snd (start (demo 1)))) ∧
  run (drop 3 overflow_trace)
      (final (take 3 overflow_trace) (snd (start (demo 1))))
    = Some (final overflow_trace (snd (start (demo 1)))) ∧
  dropped_frames (obj (snd (start (demo 1)))) = 0 ∧
  dropped_frames (obj (final (take 2 overflow_trace) (snd (start (demo 1)))))
    ≤ dropped_frames (obj (final (take 3 overflow_trace) (snd (start (demo 1))))) ∧
  dropped_frames (obj (final (take 3 overflow_trace) (snd (start (demo 1)))))
    = Z.of_nat (length (collect rejected
                          (take 2 overflow_trace ++ take 1 (drop 2 overflow_trace))
                          (snd (start (demo 1))))) ∧
  dropped_frames (obj (final overflow_trace (snd (start (demo 1)))))
    = dropped_frames (obj (final (take 3 overflow_trace) (snd (start (demo 1))))) ∧
  last_report (final overflow_trace (snd (start (demo 1))))
    = Some ("captures/cam.mp4",
            size_mb (disk (final overflow_trace (snd (start (demo 1)))))
                    "captures/cam.mp4",
            dropped_frames
              (obj (final (take 3 overflow_trace) (snd (start (demo 1)))))).
Proof.
  assert (start (demo 1) = (true, snd (start (demo 1)))) as H1
    by (vm_compute; reflexivity).
  assert (run (take 2 overflow_trace) (snd (start (demo 1)))
    = Some (final (take 2 overflow_trace) (snd (start (demo 1))))) as H2
    by (vm_compute; reflexivity).
  assert (run (take 1 (drop 2 overflow_trace))
      (final (take 2 overflow_trace) (snd (start (demo 1))))
    = Some (final (take 3 overflow_trace) (snd (start (demo 1))))) as H3
    by (vm_compute; reflexivity).
  assert (run (CallStop :: drop 4 overflow_trace)
      (final (take 3 overflow_trace) (snd (start (demo 1))))
    = Some (final overflow_trace (snd (start (demo 1))))) as H4
    by (vm_compute; reflexivity).
  destruct (dropped_counter_semantics "captures/cam.mp4" 1 30 (1920, 1080) 1 no_files
              _ _ _ _ _ _ _ H1 H2 H3 H4) as (C1 & _ & C3 & C4 & C5 & C6).
  split_and?; try assumption.
  apply C6. vm_compute. reflexivity.
Defined.

Lemma no_accept_after_stop_witness :
  start (demo 1) = (true, snd (start (demo 1))) ∧
  Forall (λ l, l ≠ CallStop) (take 3 overflow_trace) ∧
  run (take 3 overflow_trace ++ CallStop :: drop 4 overflow_trace)
      (snd (start (demo 1)))
    = Some (final overflow_trace (snd (start (demo 1)))) ∧
  caller (final overflow_trace (snd (start (demo 1)))) = Ready ∧
  step (CallWrite 5%nat) (final overflow_trace (snd (start (demo 1))))
    = Some (final overflow_trace (snd (start (demo 1)))) ∧
  Z.of_nat (length (written (final overflow_trace (snd (start (demo 1))))))
    + dropped_frames (obj (final overflow_trace (snd (start (demo 1)))))
    = Z.of_nat (length (written_calls (take 3 overflow_trace))).
Proof.
  assert (start (demo 1) = (true, snd (start (demo 1)))) as H1
    by (vm_compute; reflexivity).
  assert (Forall (λ l : label nat, l ≠ CallStop) (take 3 overflow_trace)) as H2
    by (repeat constructor; discriminate).
  assert (run (take 3 overflow_trace ++ CallStop :: drop 4 overflow_trace)
              (snd (start (demo 1)))
          = Some (final overflow_trace (snd (start (demo 1))))) as H3
    by (vm_compute; reflexivity).
  assert (caller (final overflow_trace (snd (start (demo 1)))) = Ready) as H4
    by (vm_compute; reflexivity).
  destruct (no_accept_after_stop "captures/cam.mp4" 1 30 (1920, 1080) 1
              no_files _ _ _ _ 5%nat H1 H2 H3) as (C1 & _ & C3).
  destruct (C3 H4) as [_ C4].
  split_and?; assumption.
Defined.

Lemma start_failure_contract_witness :
  idle demo_unsupported ∧
  open_fails demo_unsupported = true ∧
  fst (start demo_unsupported) = false ∧
  obj (snd (start demo_unsupported)) = obj demo_unsupported ∧
  idle (snd (start demo_unsupported)) ∧
  disk (snd (start demo_unsupported)) = disk_after_open demo_unsupported.
Proof.
  assert (idle demo_unsupported) as H1 by (unfold idle; by split_and?).
  assert (open_fails demo_unsupported = true) as H2 by reflexivity.
  destruct (start_failure_contract demo_unsupported H1 H2)
    as (C1 & C2 & C3 & _ & _ & C6 & _).
  split_and?; assumption.
Defined.

(** The codec is missing and a file is already at the path: [start] returns
    [False] and the file is still there. *)
Lemma start_failure_counterexample :
  idle demo_unsupported ∧
  open_fails demo_unsupported = true ∧
  fst (start demo_unsupported) = false ∧
  disk (snd (start demo_unsupported)) (filename (obj demo_unsupported))
    = Some 4096 ∧
  ¬ (disk (snd (start demo_unsupported)) (filename (obj demo_unsupported))
       = None).
Proof. unfold idle. by split_and?. Qed.



Lemma stop_when_closed_witness :
  closed (final empty_session (demo 4)) ∧
  step CallStop (final empty_session (demo 4))
    = Some (print (report_lines (final empty_session (demo 4)))
                  (final empty_session (demo 4))) ∧
  obj (print (report_lines (final empty_session (demo 4)))
             (final empty_session (demo 4)))
    = obj (final empty_session (demo 4)) ∧
  draining (final (take 3 empty_session) (demo 4)) ∧
  caller (final (take 3 empty_session) (demo 4)) = InStopJoin ∧
  items (queue (obj (final (take 3 empty_session) (demo 4)))) = [None] ∧
  (∃ s1,
     stop_put (stop_enter (final (take 3 empty_session) (demo 4))) = Some s1 ∧
     caller s1 = InStopJoin ∧
     items (queue (obj s1))
       = items (queue (obj (final (take 3 empty_session) (demo 4)))) ++ [None]) ∧
  draining (final stop_on_full (demo 1)) ∧
  stop_put (stop_enter (final stop_on_full (demo 1))) = None.
Proof.
  assert (closed (final empty_session (demo 4))) as H1
    by (unfold closed; split_and?; vm_compute; reflexivity).
  assert (draining (final (take 3 empty_session) (demo 4))) as H2
    by (split; [vm_compute; reflexivity
               | exists Thread_process_queue; vm_compute; reflexivity]).
  assert (caller (final (take 3 empty_session) (demo 4)) = InStopJoin) as H3
    by (vm_compute; reflexivity).
  assert (items (queue (obj (final (take 3 empty_session) (demo 4)))) = [None])
    as H4 by (vm_compute; reflexivity).
  assert (full (queue (obj (final (take 3 empty_session) (demo 4)))) = false)
    as H5 by (vm_compute; reflexivity).
  assert (draining (final stop_on_full (demo 1))) as H6
    by (split; [vm_compute; reflexivity
               | exists Thread_process_queue; vm_compute; reflexivity]).
  assert (full (queue (obj (final stop_on_full (demo 1)))) = true) as H7
    by (vm_compute; reflexivity).
  destruct (stop_when_closed (final empty_session (demo 4))) as [C _].
  destruct (C H1) as (C1 & _ & C3 & _).
  destruct (stop_when_closed (final (take 3 empty_session) (demo 4)))
    as [_ D].
  destruct (D H2) as (_ & _ & D3).
  destruct (D3 H5) as (s1 & D4 & D5 & D6 & _).
  destruct (stop_when_closed (final stop_on_full (demo 1))) as [_ E].
  destruct (E H6) as (_ & E2 & _).
  exact (conj H1 (conj C1 (conj C3 (conj H2 (conj H3 (conj H4
           (conj (ex_intro _ s1 (conj D4 (conj D5 D6)))
              (conj H6 (E2 H7))))))))).
Defined.

(** [stop] a second time prints the two lines of the report a second
    time. *)
Lemma stop_twice_counterexample :
  closed (final empty_session (demo 4)) ∧
  step CallStop (final empty_session (demo 4))
    ≠ Some (final empty_session (demo 4)) ∧
  stdout (final (empty_session ++ [CallStop]) (demo 4))
    = stdout (final empty_session (demo 4))
      ++ [Rec_video_saved "captures/cam.mp4";
          Rec_size_dropped (0 # 1048576) 0] ∧
  stdout (final (empty_session ++ [CallStop]) (demo 4))
    ≠ stdout (final empty_session (demo 4)).
Proof.
  split_and?.
  - unfold closed; split_and?; vm_compute; reflexivity.
  - intros H. apply (f_equal (fmap (M:=option) (length ∘ stdout))) in H.
    vm_compute in H. discriminate.
  - vm_compute; reflexivity.
  - intros H. apply (f_equal length) in H. vm_compute in H. discriminate.
Qed.

Lemma stop_without_start_witness :
  (demo 2 = fresh (init "captures/cam.mp4" 1 30 (1920, 1080) 2) no_files ∨
   start (fresh (init "captures/cam.mp4" 1 30 (1920, 1080) 2) no_files)
     = (false, demo 2)) ∧
  step CallStop (demo 2) = Some (print (report_lines (demo 2)) (demo 2)) ∧
  disk (demo 2) "captures/cam.mp4" = None ∧
  last_report (print (report_lines (demo 2)) (demo 2))
    = Some ("captures/cam.mp4", 0%Q, 0) ∧
  (snd (start demo_unsupported)
     = fresh (init "captures/cam.mp4" 0 30 (1920, 1080) 128)
             (file_put "captures/cam.mp4" 4096 no_files) ∨
   start (fresh (init "captures/cam.mp4" 0 30 (1920, 1080) 128)
                (file_put "captures/cam.mp4" 4096 no_files))
     = (false, snd (start demo_unsupported))) ∧
  step CallStop (snd (start demo_unsupported))
    = Some (print (report_lines (snd (start demo_unsupported)))
                  (snd (start demo_unsupported))) ∧
  releases (print (report_lines (snd (start demo_unsupported)))
                  (snd (start demo_unsupported))) = 0%nat.
Proof.
  assert (demo 2 = fresh (init "captures/cam.mp4" 1 30 (1920, 1080) 2) no_files
          ∨ start (fresh (init "captures/cam.mp4" 1 30 (1920, 1080) 2) no_files)
            = (false, demo 2)) as H1 by (left; reflexivity).
  assert (snd (start demo_unsupported)
            = fresh (init "captures/cam.mp4" 0 30 (1920, 1080) 128)
                    (file_put "captures/cam.mp4" 4096 no_files)
          ∨ start (fresh (init "captures/cam.mp4" 0 30 (1920, 1080) 128)
                         (file_put "captures/cam.mp4" 4096 no_files))
            = (false, snd (start demo_unsupported))) as H2
    by (right; reflexivity).
  destruct (stop_without_start _ _ _ _ _ _ _ H1) as (_ & _ & C3 & _ & _ & _ & _ & C8).
  destruct (stop_without_start _ _ _ _ _ _ _ H2) as (_ & _ & D3 & _ & _ & D6 & _).
  pose proof (C8 eq_refl) as C9.
  split_and?; try assumption; reflexivity.
Defined.

(** ** The further theorems at work *)

Lemma frames_accounted_witness :
  run (CallStart :: overflow_trace) (demo 1)
    = Some (final (CallStart :: overflow_trace) (demo 1)) ∧
  Z.of_nat (length (written (final (CallStart :: overflow_trace) (demo 1))))
    + Z.of_nat (length (pending (final (CallStart :: overflow_trace) (demo 1))))
    + dropped_frames (obj (final (CallStart :: overflow_trace) (demo 1)))
  = Z.of_nat (length (collect offered (CallStart :: overflow_trace) (demo 1))).
Proof.
  assert (run (CallStart :: overflow_trace) (demo 1)
          = Some (final (CallStart :: overflow_trace) (demo 1))) as H1
    by (vm_compute; reflexivity).
  split; [exact H1|].
  exact (frames_accounted "captures/cam.mp4" 1 30 (1920, 1080) 1 no_files
           _ _ H1).
Defined.

Lemma stop_always_returns_witness :
  run stop_on_full (demo 1) = Some (final stop_on_full (demo 1)) ∧
  caller (final stop_on_full (demo 1)) ≠ Ready ∧
  (length stop_on_full ≤ 5 * length (calls stop_on_full))%nat ∧
  ∃ l s', (l = StopPut ∨ l = StopJoin ∨ l = Get ∨ l = Process) ∧
    step l (final stop_on_full (demo 1)) = Some s'.
Proof.
  assert (run stop_on_full (demo 1) = Some (final stop_on_full (demo 1)))
    as H1 by (vm_compute; reflexivity).
  assert (caller (final stop_on_full (demo 1)) ≠ Ready) as H2
    by (vm_compute; discriminate).
  destruct (stop_always_returns "captures/cam.mp4" 1 30 (1920, 1080) 1
              no_files _ _ H1) as [C1 C2].
  exact (conj H1 (conj H2 (conj C1 (C2 H2)))).
Defined.

Lemma stop_drains_pending_witness :
  run [CallStart; CallWrite 1%nat; CallWrite 2%nat] (demo 2)
    = Some (final [CallStart; CallWrite 1%nat; CallWrite 2%nat] (demo 2)) ∧
  is_recording
    (obj (final [CallStart; CallWrite 1%nat; CallWrite 2%nat] (demo 2)))
    = true ∧
  run full_then_stop
      (final [CallStart; CallWrite 1%nat; CallWrite 2%nat] (demo 2))
    = Some (final ([CallStart; CallWrite 1%nat; CallWrite 2%nat]
                   ++ full_then_stop) (demo 2)) ∧
  caller (final ([CallStart; CallWrite 1%nat; CallWrite 2%nat]
                 ++ full_then_stop) (demo 2)) = Ready ∧
  written (final ([CallStart; CallWrite 1%nat; CallWrite 2%nat]
                  ++ full_then_stop) (demo 2))
    = written (final [CallStart; CallWrite 1%nat; CallWrite 2%nat] (demo 2))
      ++ pending (final [CallStart; CallWrite 1%nat; CallWrite 2%nat] (demo 2)) ∧
  releases (final ([CallStart; CallWrite 1%nat; CallWrite 2%nat]
                   ++ full_then_stop) (demo 2)) = 1%nat.
Proof.
  assert (run [CallStart; CallWrite 1%nat; CallWrite 2%nat] (demo 2)
    = Some (final [CallStart; CallWrite 1%nat; CallWrite 2%nat] (demo 2)))
    as H1 by (vm_compute; reflexivity).
  assert (is_recording
    (obj (final [CallStart; CallWrite 1%nat; CallWrite 2%nat] (demo 2)))
    = true) as H2 by (vm_compute; reflexivity).
  assert (run (CallStop :: tail full_then_stop)
      (final [CallStart; CallWrite 1%nat; CallWrite 2%nat] (demo 2))
    = Some (final ([CallStart; CallWrite 1%nat; CallWrite 2%nat]
                   ++ full_then_stop) (demo 2))) as H3
    by (vm_compute; reflexivity).
  assert (caller (final ([CallStart; CallWrite 1%nat; CallWrite 2%nat]
                 ++ full_then_stop) (demo 2)) = Ready) as H4
    by (vm_compute; reflexivity).
  destruct (stop_drains_pending "captures/cam.mp4" 1 30 (1920, 1080) 2
              no_files _ _ _ _ H1 H2 H3 H4) as (C1 & _ & _ & _ & _ & _ & C7).
  exact (conj H1 (conj H2 (conj H3 (conj H4 (conj C1 C7))))).
Defined.

Lemma release_discipline_witness :
  run (CallStart :: drain_trace) (demo 2)
    = Some (final (CallStart :: drain_trace) (demo 2)) ∧
  releases (final (CallStart :: drain_trace) (demo 2)) = 1%nat ∧
  closed (final (CallStart :: drain_trace) (demo 2)) ∧
  writer (obj (final (CallStart :: drain_trace) (demo 2))) = None ∧
  run [CallStop; CallWrite 5%nat] (final (CallStart :: drain_trace) (demo 2))
    = Some (final (CallStart :: drain_trace ++ [CallStop; CallWrite 5%nat])
                  (demo 2)) ∧
  releases (final (CallStart :: drain_trace ++ [CallStop; CallWrite 5%nat])
                  (demo 2)) = 1%nat ∧
  written (final (CallStart :: drain_trace ++ [CallStop; CallWrite 5%nat])
                 (demo 2))
    = written (final (CallStart :: drain_trace) (demo 2)).
Proof.
  assert (run (CallStart :: drain_trace) (demo 2)
    = Some (final (CallStart :: drain_trace) (demo 2))) as H1
    by (vm_compute; reflexivity).
  assert (releases (final (CallStart :: drain_trace) (demo 2)) = 1%nat) as H2
    by (vm_compute; reflexivity).
  assert (run [CallStop; CallWrite 5%nat]
              (final (CallStart :: drain_trace) (demo 2))
    = Some (final (CallStart :: drain_trace ++ [CallStop; CallWrite 5%nat])
                  (demo 2))) as H3 by (vm_compute; reflexivity).
  destruct (release_discipline "captures/cam.mp4" 1 30 (1920, 1080) 2
              no_files _ _ H1) as (_ & C2 & C3 & C4).
  destruct (C3 H2) as [C5 _]. destruct (C4 H2 _ _ H3) as (C6 & C7 & _).
  exact (conj H1 (conj H2 (conj (proj1 C2 H2) (conj C5 (conj H3 (conj C6 C7)))))).
Defined.

Lemma consumer_never_skips_witness :
  run held_trace (demo 2) = Some (final held_trace (demo 2)) ∧
  consumer (final held_trace (demo 2)) = Holding (Some 10%nat) ∧
  is_Some (writer (obj (final held_trace (demo 2)))) ∧
  ∃ s', step Process (final held_trace (demo 2)) = Some s' ∧
    written s' = written (final held_trace (demo 2)) ++ [10%nat].
Proof.
  assert (run held_trace (demo 2) = Some (final held_trace (demo 2))) as H1
    by (vm_compute; reflexivity).
  assert (consumer (final held_trace (demo 2)) = Holding (Some 10%nat)) as H2
    by (vm_compute; reflexivity).
  destruct (consumer_never_skips "captures/cam.mp4" 1 30 (1920, 1080) 2
              no_files _ _ _ H1 H2) as (C1 & s' & C2 & C3 & _).
  exact (conj H1 (conj H2 (conj C1 (ex_intro _ s' (conj C2 C3))))).
Defined.

Lemma paused_burst_witness :
  1 ≤ 2 ∧
  start (demo 2) = (true, snd (start (demo 2))) ∧
  ∃ s, run (CallWrite <$> [1%nat; 2%nat; 3%nat; 4%nat]) (snd (start (demo 2)))
         = Some s ∧
    items (queue (obj s)) = [Some 1%nat; Some 2%nat] ∧
    collect rejected (CallWrite <$> [1%nat; 2%nat; 3%nat; 4%nat])
      (snd (start (demo 2))) = [3%nat; 4%nat] ∧
    dropped_frames (obj s) = 2.
Proof.
  assert (1 ≤ 2) as H1 by lia.
  assert (start (demo 2) = (true, snd (start (demo 2)))) as H2
    by (vm_compute; reflexivity).
  destruct (paused_burst "captures/cam.mp4" 1 30 (1920, 1080) 2 no_files
              _ [1%nat; 2%nat; 3%nat; 4%nat] H1 H2)
    as (s & C1 & C2 & _ & C4 & C5).
  exact (conj H1 (conj H2 (ex_intro _ s (conj C1 (conj C2 (conj C4 C5)))))).
Defined.

Lemma unbounded_never_drops_witness :
  0 ≤ 0 ∧
  run [CallStart; CallWrite 7%nat; CallWrite 8%nat] (demo 0)
    = Some (final [CallStart; CallWrite 7%nat; CallWrite 8%nat] (demo 0)) ∧
  dropped_frames
    (obj (final [CallStart; CallWrite 7%nat; CallWrite 8%nat] (demo 0))) = 0 ∧
  written (final [CallStart; CallWrite 7%nat; CallWrite 8%nat] (demo 0))
    ++ pending (final [CallStart; CallWrite 7%nat; CallWrite 8%nat] (demo 0))
  = collect offered [CallStart; CallWrite 7%nat; CallWrite 8%nat] (demo 0).
Proof.
  assert (0 ≤ 0) as H1 by lia.
  assert (run [CallStart; CallWrite 7%nat; CallWrite 8%nat] (demo 0)
    = Some (final [CallStart; CallWrite 7%nat; CallWrite 8%nat] (demo 0)))
    as H2 by (vm_compute; reflexivity).
  destruct (unbounded_never_drops "captures/cam.mp4" 1 30 (1920, 1080) 0
              no_files _ _ H1 H2) as (C1 & _ & C3).
  exact (conj H1 (conj H2 (conj C1 C3))).
Defined.

Lemma recorder_lifecycle_witness :
  app_run (session_start ++ session_frames) demo_app
    = Some (app_final (session_start ++ session_frames) demo_app) ∧
  async_recorder (camera (app_final (session_start ++ session_frames) demo_app))
    = Some (default (demo 0)
              (async_recorder
                 (camera (app_final (session_start ++ session_frames) demo_app)))) ∧
  loop_pc (pc (app_final (session_start ++ session_frames) demo_app)) = true ∧
  report_count
    (default (demo 0)
       (async_recorder
          (camera (app_final (session_start ++ session_frames) demo_app))))
    = 0%nat ∧
  app_run (session_start ++ session_frames ++ session_quit_recording) demo_app
    = Some (app_final (session_start ++ session_frames
                       ++ session_quit_recording) demo_app) ∧
  uninterrupted (session_start ++ session_frames ++ session_quit_recording)
    = true ∧
  pc (app_final (session_start ++ session_frames ++ session_quit_recording)
                demo_app) = Done ∧
  report_count
    (default (demo 0)
       (async_recorder
          (camera (app_final (session_start ++ session_frames
                              ++ session_quit_recording) demo_app))))
    = 1%nat ∧
  pending
    (default (demo 0)
       (async_recorder
          (camera (app_final (session_start ++ session_frames
                              ++ session_quit_recording) demo_app))))
    = [] ∧
  app_run (session_start ++ session_frames ++ session_stop_interrupted)
          demo_app
    = Some (app_final (session_start ++ session_frames
                       ++ session_stop_interrupted) demo_app) ∧
  uninterrupted (session_start ++ session_frames ++ session_stop_interrupted)
    = false ∧
  report_count
    (default (demo 0)
       (async_recorder
          (camera (app_final (session_start ++ session_frames
                              ++ session_stop_interrupted) demo_app))))
    = 2%nat ∧
  (report_count
     (default (demo 0)
        (async_recorder
           (camera (app_final (session_start ++ session_frames
                               ++ session_stop_interrupted) demo_app))))
   ≤ 2)%nat.
Proof.
  assert (app_run (session_start ++ session_frames) demo_app
    = Some (app_final (session_start ++ session_frames) demo_app)) as H1
    by (vm_compute; reflexivity).
  assert (async_recorder
            (camera (app_final (session_start ++ session_frames) demo_app))
    = Some (default (demo 0)
              (async_recorder
                 (camera (app_final (session_start ++ session_frames)
                                    demo_app))))) as H2
    by (vm_compute; reflexivity).
  assert (loop_pc (pc (app_final (session_start ++ session_frames) demo_app))
          = true) as H3 by (vm_compute; reflexivity).
  assert (app_run (session_start ++ session_frames ++ session_quit_recording)
                  demo_app
    = Some (app_final (session_start ++ session_frames
                       ++ session_quit_recording) demo_app)) as H4
    by (vm_compute; reflexivity).
  assert (async_recorder
            (camera (app_final (session_start ++ session_frames
                                ++ session_quit_recording) demo_app))
    = Some (default (demo 0)
              (async_recorder
                 (camera (app_final (session_start ++ session_frames
                                     ++ session_quit_recording) demo_app)))))
    as H5 by (vm_compute; reflexivity).
  assert (pc (app_final (session_start ++ session_frames
                         ++ session_quit_recording) demo_app) = Done) as H6
    by (vm_compute; reflexivity).
  assert (uninterrupted (session_start ++ session_frames
                         ++ session_quit_recording) = true) as H7
    by (vm_compute; reflexivity).
  assert (app_run (session_start ++ session_frames ++ session_stop_interrupted)
                  demo_app
    = Some (app_final (session_start ++ session_frames
                       ++ session_stop_interrupted) demo_app)) as H8
    by (vm_compute; reflexivity).
  assert (async_recorder
            (camera (app_final (session_start ++ session_frames
                                ++ session_stop_interrupted) demo_app))
    = Some (default (demo 0)
              (async_recorder
                 (camera (app_final (session_start ++ session_frames
                                     ++ session_stop_interrupted) demo_app)))))
    as H9 by (vm_compute; reflexivity).
  assert (uninterrupted (session_start ++ session_frames
                         ++ session_stop_interrupted) = false) as H10
    by (vm_compute; reflexivity).
  assert (report_count
            (default (demo 0)
               (async_recorder
                  (camera (app_final (session_start ++ session_frames
                                      ++ session_stop_interrupted) demo_app))))
          = 2%nat) as H11 by (vm_compute; reflexivity).
  destruct (recorder_lifecycle 0 30 1920 1080 no_files _ _ _ H1 H2)
    as (_ & C3 & _).
  destruct (C3 H3) as (C4 & _).
  destruct (recorder_lifecycle 0 30 1920 1080 no_files _ _ _ H4 H5)
    as (_ & _ & D3).
  destruct (D3 H7) as (_ & _ & D4).
  destruct (D4 H6) as (D5 & _ & _ & _ & D9 & _).
  destruct (recorder_lifecycle 0 30 1920 1080 no_files _ _ _ H8 H9)
    as (E1 & _).
  exact (conj H1 (conj H2 (conj H3 (conj C4 (conj H4 (conj H7 (conj H6
           (conj D5 (conj D9 (conj H8 (conj H10 (conj H11 E1)))))))))))).
Defined.

Lemma latch_once_witness :
  app_run (session_start ++ session_frames ++ session_stop) demo_app
    = Some (app_final (session_start ++ session_frames ++ session_stop)
                      demo_app) ∧
  uninterrupted (session_start ++ session_frames ++ session_stop) = true ∧
  in_controls
    (pc (app_final (session_start ++ session_frames ++ session_stop) demo_app))
    = false ∧
  hw_configured
    (camera (app_final (session_start ++ session_frames ++ session_stop)
                       demo_app)) = true ∧
  shell (app_final (session_start ++ session_frames ++ session_stop) demo_app)
    = [V4l2_ctl 0 "frame_rate" 30] ∧
  app_run session_controls_interrupted demo_app
    = Some (app_final session_controls_interrupted demo_app) ∧
  existsb is_frame_read session_controls_interrupted = true ∧
  hw_configured (camera (app_final session_controls_interrupted demo_app))
    = false ∧
  (shell (app_final session_controls_interrupted demo_app) = [] ∨
   shell (app_final session_controls_interrupted demo_app)
     = [V4l2_ctl 0 "frame_rate" 30]).
Proof.
  assert (app_run (session_start ++ session_frames ++ session_stop) demo_app
    = Some (app_final (session_start ++ session_frames ++ session_stop)
                      demo_app)) as H1 by (vm_compute; reflexivity).
  assert (uninterrupted (session_start ++ session_frames ++ session_stop)
          = true) as H2 by (vm_compute; reflexivity).
  assert (in_controls
            (pc (app_final (session_start ++ session_frames ++ session_stop)
                           demo_app)) = false) as H3
    by (vm_compute; reflexivity).
  assert (app_run session_controls_interrupted demo_app
    = Some (app_final session_controls_interrupted demo_app)) as H4
    by (vm_compute; reflexivity).
  assert (existsb is_frame_read session_controls_interrupted = true) as H5
    by (vm_compute; reflexivity).
  assert (hw_configured
            (camera (app_final session_controls_interrupted demo_app))
          = false) as H6 by (vm_compute; reflexivity).
  destruct (latch_once 0 30 1920 1080 no_files _ _ H1) as (_ & _ & _ & C4).
  destruct (C4 H2 H3) as [C5 C6].
  destruct (latch_once 0 30 1920 1080 no_files _ _ H4) as (D1 & _).
  exact (conj H1 (conj H2 (conj H3 (conj C5 (conj C6 (conj H4 (conj H5
           (conj H6 D1)))))))).
Defined.

Lemma app_stop_returns_witness :
  app_run (session_start ++ session_frames ++ take 1 session_stop) demo_app
    = Some (app_final (session_start ++ session_frames ++ take 1 session_stop)
                      demo_app) ∧
  pc (app_final (session_start ++ session_frames ++ take 1 session_stop)
                demo_app) = InToggle ∧
  (rec_steps (session_start ++ session_frames ++ take 1 session_stop)
   + app_potential
       (app_final (session_start ++ session_frames ++ take 1 session_stop)
                  demo_app)
   ≤ 4 * main_steps (session_start ++ session_frames ++ take 1 session_stop))%nat ∧
  ((∃ l m', app_step (Rec l)
              (app_final (session_start ++ session_frames
                          ++ take 1 session_stop) demo_app) = Some m') ∨
   (∃ m', app_step ToggleReturn
            (app_final (session_start ++ session_frames
                        ++ take 1 session_stop) demo_app) = Some m')) ∧
  app_run (session_start ++ session_frames ++ session_join_interrupted)
          demo_app
    = Some (app_final (session_start ++ session_frames
                       ++ session_join_interrupted) demo_app) ∧
  pc (app_final (session_start ++ session_frames ++ session_join_interrupted)
                demo_app) = InCleanup ∧
  ((∃ l m', app_step (Rec l)
              (app_final (session_start ++ session_frames
                          ++ session_join_interrupted) demo_app) = Some m') ∨
   (∀ cap_opened, ∃ m',
      app_step (CleanupReturn cap_opened)
        (app_final (session_start ++ session_frames
                    ++ session_join_interrupted) demo_app) = Some m')).
Proof.
  assert (app_run (session_start ++ session_frames ++ take 1 session_stop)
                  demo_app
    = Some (app_final (session_start ++ session_frames ++ take 1 session_stop)
                      demo_app)) as H1 by (vm_compute; reflexivity).
  assert (pc (app_final (session_start ++ session_frames
                         ++ take 1 session_stop) demo_app) = InToggle) as H2
    by (vm_compute; reflexivity).
  assert (app_run (session_start ++ session_frames ++ session_join_interrupted)
                  demo_app
    = Some (app_final (session_start ++ session_frames
                       ++ session_join_interrupted) demo_app)) as H3
    by (vm_compute; reflexivity).
  assert (pc (app_final (session_start ++ session_frames
                         ++ session_join_interrupted) demo_app) = InCleanup)
    as H4 by (vm_compute; reflexivity).
  destruct (app_stop_returns 0 30 1920 1080 no_files _ _ H1) as (C1 & C2 & _).
  destruct (app_stop_returns 0 30 1920 1080 no_files _ _ H3) as (_ & _ & D3).
  exact (conj H1 (conj H2 (conj C1 (conj (C2 H2) (conj H3 (conj H4 (D3 H4))))))).
Defined.

Lemma toggle_start_contract_witness :
  recording (camera (app_final (take 2 session_start) demo_app)) = false ∧
  pc (toggle_recording "20260101_120000" "20260101_120001"
        (app_final (take 2 session_start) demo_app)) = AtRead ∧
  ∃ r, async_recorder
         (camera (toggle_recording "20260101_120000" "20260101_120001"
                    (app_final (take 2 session_start) demo_app))) = Some r ∧
    is_recording (obj r) = true ∧
    filename (obj r) = "captures/cam_20260101_120000.mp4" ∧
    fourcc (obj r) = 1983148141.
Proof.
  assert (recording (camera (app_final (take 2 session_start) demo_app))
          = false) as H1 by (vm_compute; reflexivity).
  destruct (toggle_start_contract "20260101_120000" "20260101_120001"
              (app_final (take 2 session_start) demo_app) H1)
    as (C1 & C2 & _ & C4).
  destruct (C4 _ C2) as (C5 & _ & _ & _ & _ & C6 & C7).
  refine (conj H1 (conj C1 (ex_intro _ _ (conj C2 (conj _ (conj _ _)))))).
  - rewrite C5. vm_compute; reflexivity.
  - rewrite C6. vm_compute; reflexivity.
  - rewrite C7. vm_compute; reflexivity.
Defined.

Lemma generate_filename_inj_witness :
  String.length "20260101_120000" = String.length "20260101_120001" ∧
  (generate_filename (camera demo_app) "20260101_120000" "mp4"
   = generate_filename (camera demo_app) "20260101_120001" "avi"
   ↔ "20260101_120000" = "20260101_120001" ∧ "mp4" = "avi").
Proof.
  assert (String.length "20260101_120000" = String.length "20260101_120001")
    as H1 by reflexivity.
  exact (conj H1 (generate_filename_inj (camera demo_app) _ _ "mp4" "avi" H1)).
Defined.

Lemma quit_key_ends_loop_witness :
  Z.land 369 255 = 113 ∧
  app_run ((session_start ++ session_frames)
           ++ Key 31 369 "" "" :: tail session_quit_recording) demo_app
    = Some (app_final ((session_start ++ session_frames)
                       ++ Key 31 369 "" "" :: tail session_quit_recording)
                      demo_app) ∧
  is_running
    (camera (app_final ((session_start ++ session_frames)
                        ++ Key 31 369 "" "" :: tail session_quit_recording)
                       demo_app)) = false ∧
  Forall (λ al, in_loop_body al = false) (tail session_quit_recording).
Proof.
  assert (Z.land 369 255 = 113) as H1 by reflexivity.
  assert (app_run ((session_start ++ session_frames)
           ++ Key 31 369 "" "" :: tail session_quit_recording) demo_app
    = Some (app_final ((session_start ++ session_frames)
                       ++ Key 31 369 "" "" :: tail session_quit_recording)
                      demo_app)) as H2 by (vm_compute; reflexivity).
  destruct (quit_key_ends_loop 0 30 1920 1080 no_files _ _ _ _ _ _ _ H1 H2)
    as (C1 & C2 & _).
  exact (conj H1 (conj H2 (conj C1 C2))).
Defined.
